(** * Dendritic Gated Network: inference and online update

    A shallow embedding of the numerical core of
    [gated_linear_networks/colabs/dendritic_gated_network.ipynb]:
    [step_square_loss], [sigmoid], [inverse_sigmoid], [step_bernoulli],
    [forward_pass], the initialisation of [dgn_weights] and
    [dgn_hyperplanes], and the training loop.

    Conventions of the embedding.
    - A Python float is a real number ([R]); rounding, infinities and NaN
      are not represented.  [target] is the number the driver passes; with
      its default [None] every call raises.
    - An [np.ndarray] is the nested list of its entries.  A nested list
      fixes the shape of an array only when no axis is empty, which is the
      case for every array the notebook builds.
    - The operations of numpy that raise on arrays of disagreeing shapes
      return [None] here; [None] also stands for the [NameError] of a step
      function whose loop body never ran.
    - [w -= ...] mutates the array object held in the list [weights].  The
      arrays live in a store ([gmap loc tensor3]); [weights] and
      [hyperplanes] are lists of references into it, so that two entries
      may denote one and the same array. *)

From Stdlib Require Import Reals Lra.
From stdpp Require Import base option list gmap.

#[local] Open Scope R_scope.

#[global] Instance Rlt_decision : RelDecision Rlt := Rlt_dec.
#[global] Instance Rgt_decision : RelDecision Rgt := Rgt_dec.
#[global] Instance Req_decision : EqDecision R := Req_dec_T.

(** * Part I: the program *)

(** ** Arrays and the store *)

Abbreviation vec := (list R).
Abbreviation matrix := (list (list R)).
Abbreviation tensor3 := (list (list (list R))).

Abbreviation loc := nat.
Abbreviation store := (gmap nat tensor3).

(** ** The numpy operations the notebook uses *)

Module Np.

(** [a.sum()] of a one-dimensional array. *)
Definition sum (a : vec) : R := foldr Rplus 0 a.

(** Sum of the rows of a two-dimensional array whose rows have [n]
    entries ([a.sum(axis=0)]). *)
Definition vsum (n : nat) (a : matrix) : vec :=
  foldr (zip_with Rplus) (replicate n 0) a.

(** Extent of the last axis, read off the first entry. *)
Definition ncols (a : matrix) : nat :=
  match a with r :: _ => length r | [] => 0%nat end.

Definition depth (a : tensor3) : nat :=
  match a with m :: _ => ncols m | [] => 0%nat end.

(** [np.hstack([x, a])] of a scalar and a one-dimensional array. *)
Definition hstack (x : R) (a : vec) : vec := x :: a.

(** [a.dot(b)] of two one-dimensional arrays: the inner product;
    [ValueError] when the lengths differ. *)
Definition dot (a b : vec) : option R :=
  if decide (length a = length b) then Some (sum (zip_with Rmult a b))
  else None.

(** [a.dot(b)] of a two-dimensional and a one-dimensional array: the last
    axis of [a] is contracted with [b]. *)
Definition dot21 (a : matrix) (b : vec) : option vec :=
  mapM (λ row, dot row b) a.

(** [a.dot(b)] of a three-dimensional and a one-dimensional array. *)
Definition dot31 (a : tensor3) (b : vec) : option matrix :=
  mapM (λ m, dot21 m b) a.

(** Row vector times matrix: [sum_j a[j] * m[j, :]]. *)
Definition vecmat (a : vec) (m : matrix) : option vec :=
  if decide (length a = length m)
  then Some (vsum (ncols m) (zip_with (λ x row, Rmult x <$> row) a m))
  else None.

(** [a.dot(b)] of a two-dimensional array [a] of shape (N, B) and a
    three-dimensional array [b] of shape (N', B, I): numpy contracts the
    last axis of [a] with the second-to-last axis of [b],
    [dot(a, b)[i, k, m] = sum_j a[i, j] * b[k, j, m]],
    and the result has shape (N, N', I). *)
Definition dot23 (a : matrix) (b : tensor3) : option tensor3 :=
  mapM (λ row, mapM (λ m, vecmat row m) b) a.

(** [a.sum(axis=1)] of a three-dimensional array of shape (N, N', I). *)
Definition sum_axis1 (n : nat) (a : tensor3) : matrix := vsum n <$> a.

(** [np.heaviside(x1, x2)]: 0 below zero, [x2] at zero, 1 above. *)
Definition heaviside (x1 x2 : R) : R :=
  if decide (x1 < 0) then 0 else if decide (x1 = 0) then x2 else 1.

(** [x.astype(bool)]: every non-zero number is [True]. *)
Definition astype_bool (x : R) : bool := bool_decide (x ≠ 0).

(** A boolean used in arithmetic: [True] is 1 and [False] is 0. *)
Definition of_bool (b : bool) : R := if b then 1 else 0.

(** [np.clip(x, lo, hi)], that is [minimum(hi, maximum(x, lo))]. *)
Definition clip (x lo hi : R) : R := Rmin hi (Rmax x lo).

(** [np.logaddexp(a, b) = log(exp(a) + exp(b))]. *)
Definition logaddexp (a b : R) : R := ln (exp a + exp b).

(** In-place arithmetic [a op= b] broadcasts [b] to the shape of [a]:
    along every axis the extents agree, or that of [b] is one and its
    single entry is used throughout; otherwise [ValueError]. *)
Definition broadcast {A B C} (f : A → B → option C)
    (a : list A) (b : list B) : option (list C) :=
  if decide (length b = length a) then mapM (λ p, f p.1 p.2) (zip a b)
  else match b with
       | [y] => mapM (λ x, f x y) a
       | _ => None
       end.

(** [a -= b] on three-dimensional arrays: the new contents of [a]. *)
Definition isub (a b : tensor3) : option tensor3 :=
  broadcast (broadcast (broadcast (λ x y, Some (x - y)))) a b.

End Np.

(** ** DGN inference/update *)

(** [np.heaviside(h.dot(side_info), 0).astype(bool)] *)
Definition gate_values (h : tensor3) (side_info : vec)
    : option (list (list bool)) :=
  a ← Np.dot31 h side_info;
  Some (fmap (M := list) (fmap (M := list)
          (λ x, Np.astype_bool (Np.heaviside x 0))) a).

(** [gate_values.dot(w).sum(axis=1)] *)
Definition effective_weights (gate_values : list (list bool))
    (w : tensor3) : option matrix :=
  a ← Np.dot23 (fmap (M := list) (fmap (M := list) Np.of_bool)
                  gate_values) w;
  Some (Np.sum_axis1 (Np.depth w) a).

(** [learning_rate * gate_values[:, :, None] * grad[:, None]]: entry
    [i, j, m] is [learning_rate * gate_values[i, j] * grad[i, m]]. *)
Definition weight_decrement (learning_rate : R)
    (gate_values : list (list bool)) (grad : matrix) : tensor3 :=
  zip_with (λ gate_i grad_i,
    (λ g, (λ x, learning_rate * Np.of_bool g * x) <$> grad_i) <$> gate_i)
    gate_values grad.

(** [(r_out[:, None] - target) * r_in[None]] *)
Definition grad_square_loss (target : R) (r_out r_in : vec) : matrix :=
  (λ y, (λ x, (y - target) * x) <$> r_in) <$> r_out.

(** The body of the loop of [step_square_loss] for one layer, on the
    arrays [w] and [h] the references of this layer denote: the output of
    the layer and the contents of [w] when the body ends. *)
Definition layer_square_loss (learning_rate target : R) (update : bool)
    (side_info : vec) (w h : tensor3) (r_in : vec)
    : option (vec * tensor3) :=
  let r_in := Np.hstack 1 r_in in
  gate_values ← gate_values h side_info;
  effective_weights ← effective_weights gate_values w;
  r_out ← Np.dot21 effective_weights r_in;
  w ← (if update
       then let grad := grad_square_loss target r_out r_in in
            Np.isub w (weight_decrement learning_rate gate_values grad)
       else Some w);
  Some (r_out, w).

(** [for w, h in zip(weights, hyperplanes)]: the loop over the layers,
    with the body [layer] run on the arrays read from the store; an
    updating pass writes the new contents of [w] back in place.  [r_out]
    is unbound ([None]) until the body has run once. *)
Fixpoint for_layers (update : bool)
    (layer : tensor3 → tensor3 → vec → option (vec * tensor3))
    (layers : list (loc * loc)) (σ : store) (r_in : vec)
    (r_out : option vec) : option (option vec * store) :=
  match layers with
  | [] => Some (r_out, σ)
  | (lw, lh) :: layers =>
      w ← σ !! lw;
      h ← σ !! lh;
      '(r_out, w) ← layer w h r_in;
      for_layers update layer layers
                 (if update then <[lw := w]> σ else σ) r_out (Some r_out)
  end.

(** [step_square_loss]: the pair [(r_out, loss)] it returns and the store
    it leaves. *)
Definition step_square_loss (inputs : vec) (weights hyperplanes : list loc)
    (hyperplane_bias_magnitude learning_rate target : R) (update : bool)
    (σ : store) : option (vec * vec * store) :=
  let r_in := inputs in
  let side_info := Np.hstack hyperplane_bias_magnitude inputs in
  '(r_out, σ) ← for_layers update
                  (layer_square_loss learning_rate target update side_info)
                  (zip weights hyperplanes) σ r_in None;
  r_out ← r_out;
  let loss := fmap (M := list) (λ y, (target - y) ^ 2 / 2) r_out in
  Some (r_out, loss, σ).

(** [sigmoid(x)], the numerically stable form of the notebook. *)
Definition sigmoid (x : R) : R := exp (- Np.logaddexp 0 (- x)).

Definition inverse_sigmoid (x : R) : R := ln (x / (1 - x)).

(** [np.abs(target - r_out_unclipped) > epsilon] *)
Definition update_indicator (epsilon target : R) (r_out_unclipped : vec)
    : list bool :=
  (λ p, bool_decide (Rabs (target - p) > epsilon)) <$> r_out_unclipped.

(** [(r_out[:, None] - target) * h_in[None] * update_indicator[:, None]] *)
Definition grad_bernoulli (target : R) (r_out h_in : vec)
    (update_indicator : list bool) : matrix :=
  zip_with (λ y u, (λ x, (y - target) * x * Np.of_bool u) <$> h_in)
    r_out update_indicator.

(** The body of the loop of [step_bernoulli] for one layer. *)
Definition layer_bernoulli (learning_rate epsilon target : R)
    (update : bool) (side_info : vec) (w h : tensor3) (r_in : vec)
    : option (vec * tensor3) :=
  let r_in := Np.hstack (sigmoid 1) r_in in
  let h_in := inverse_sigmoid <$> r_in in
  gate_values ← gate_values h side_info;
  effective_weights ← effective_weights gate_values w;
  h_out ← Np.dot21 effective_weights h_in;
  let r_out_unclipped := sigmoid <$> h_out in
  let r_out := (λ p, Np.clip p epsilon (1 - epsilon)) <$> r_out_unclipped in
  w ← (if update
       then let update_indicator :=
              update_indicator epsilon target r_out_unclipped in
            let grad := grad_bernoulli target r_out h_in update_indicator in
            Np.isub w (weight_decrement learning_rate gate_values grad)
       else Some w);
  Some (r_out, w).

(** [step_bernoulli]: the pair [(r_out, loss)] it returns and the store it
    leaves. *)
Definition step_bernoulli (inputs : vec) (weights hyperplanes : list loc)
    (hyperplane_bias_magnitude learning_rate epsilon target : R)
    (update : bool) (σ : store) : option (vec * vec * store) :=
  let r_in := (λ x, Np.clip (sigmoid x) epsilon (1 - epsilon)) <$> inputs in
  let side_info := Np.hstack hyperplane_bias_magnitude inputs in
  '(r_out, σ) ← for_layers update
                  (layer_bernoulli learning_rate epsilon target update
                     side_info)
                  (zip weights hyperplanes) σ r_in None;
  r_out ← r_out;
  let loss := fmap (M := list)
                (λ y, - (target * ln y + (1 - target) * ln (1 - y))) r_out in
  Some (r_out, loss, σ).

(** ** The driver *)

(** A step function as [forward_pass] calls it:
    [step_fn(x_i, weights, hyperplanes, target=y_i,
             learning_rate=learning_rate, update=update)]. *)
Abbreviation step_fn :=
  (vec → list loc → list loc → R → R → bool → store
   → option (vec * vec * store)).

(** [step = step_bernoulli] if [do_classification], else
    [step = step_square_loss]; [forward_pass] leaves
    [hyperplane_bias_magnitude] and [epsilon] at their defaults. *)
Definition step (do_classification : bool) : step_fn :=
  if do_classification
  then λ inputs weights hyperplanes target learning_rate update,
         step_bernoulli inputs weights hyperplanes 1 learning_rate 0.01
           target update
  else λ inputs weights hyperplanes target learning_rate update,
         step_square_loss inputs weights hyperplanes 1 learning_rate
           target update.

(** The loop of [forward_pass]: [outputs[i], losses[i] = step_fn(...)]
    stores each returned array, which must hold exactly one entry, as a
    number. *)
Fixpoint forward_loop (step_fn : step_fn) (xy : list (vec * R))
    (weights hyperplanes : list loc) (learning_rate : R) (update : bool)
    (σ : store) : option (list (R * R) * store) :=
  match xy with
  | [] => Some ([], σ)
  | (x_i, y_i) :: xy =>
      '(r_out, loss, σ) ← step_fn x_i weights hyperplanes y_i learning_rate
                            update σ;
      match r_out, loss with
      | [output], [loss] =>
          '(rest, σ) ← forward_loop step_fn xy weights hyperplanes
                         learning_rate update σ;
          Some ((output, loss) :: rest, σ)
      | _, _ => None
      end
  end.

(** [forward_pass(step_fn, x, y, weights, hyperplanes, learning_rate,
    update)]: [(np.mean(losses), outputs)] and the store it leaves.  Both
    arrays have [len(y)] entries and start as zeros. *)
Definition forward_pass (step_fn : step_fn) (x : list vec) (y : vec)
    (weights hyperplanes : list loc) (learning_rate : R) (update : bool)
    (σ : store) : option (R * vec * store) :=
  '(results, σ) ← forward_loop step_fn (zip x y) weights hyperplanes
                    learning_rate update σ;
  let pad := replicate (length y - length results) 0 in
  let outputs := results.*1 ++ pad in
  let losses := results.*2 ++ pad in
  Some (Np.sum losses / INR (length y), outputs, σ).

(** ** Initialisation of weights and gating parameters *)

(** [np.hstack([n_features + 1, n_neurons[:-1] + 1])] *)
Definition n_inputs (n_features : nat) (n_neurons : list nat) : list nat :=
  (n_features + 1)%nat
    :: ((λ n, (n + 1)%nat) <$> take (length n_neurons - 1) n_neurons).

(** [[np.zeros((n_neuron, n_branches, n_input)) for ...]] *)
Definition dgn_weights (n_features n_branches : nat) (n_neurons : list nat)
    : list tensor3 :=
  zip_with (λ n_neuron n_input,
              replicate n_neuron (replicate n_branches (replicate n_input 0)))
    n_neurons (n_inputs n_features n_neurons).

(** Sum of the squares of the entries of a two-dimensional array. *)
Definition sum_squares2 (a : matrix) : R :=
  Np.sum ((λ row, Np.sum ((λ x, x * x) <$> row)) <$> a).

(** [np.linalg.norm(a)] of a two-dimensional array: the Frobenius norm. *)
Definition norm (a : matrix) : R := sqrt (sum_squares2 a).

(** [h_ / np.linalg.norm(h_[:, :, :-1], axis=(1, 2))[:, None, None]]:
    the norm is taken, neuron by neuron, over the two last axes of the
    slice that drops the last entry of the last axis. *)
Definition normalise (h_ : tensor3) : tensor3 :=
  (λ m, let n := norm ((λ v, take (length v - 1) v) <$> m) in
        fmap (M := list) (fmap (M := list) (λ x, x / n)) m) <$> h_.

(** [dgn_hyperplanes], from the arrays [np.random.normal] has drawn, one
    per layer and of shape (n_neuron, n_branches, n_features + 1). *)
Definition dgn_hyperplanes (samples : list tensor3) : list tensor3 :=
  normalise <$> samples.

(** The arrays a list comprehension builds are new objects: each one is
    stored at a location the store does not hold yet. *)
Fixpoint alloc (arrays : list tensor3) (σ : store) : list loc * store :=
  match arrays with
  | [] => ([], σ)
  | a :: arrays =>
      let l := fresh (dom σ) in
      let '(ls, σ) := alloc arrays (<[l := a]> σ) in
      (l :: ls, σ)
  end.

(** The lists [dgn_weights] and [dgn_hyperplanes] and the store after the
    initialisation cell has run; [samples] are the arrays drawn by
    [np.random.normal]. *)
Definition init (n_features n_branches : nat) (n_neurons : list nat)
    (samples : list tensor3) : list loc * list loc * store :=
  let '(weights, σ) :=
    alloc (dgn_weights n_features n_branches n_neurons) ∅ in
  let '(hyperplanes, σ) := alloc (dgn_hyperplanes samples) σ in
  (weights, hyperplanes, σ).

(** ** The training cell *)

(** [np.round(x)]: the nearest integer, a tie going to the even one. *)
Definition round (x : R) : R :=
  let n := Int_part x in
  let f := frac_part x in
  IZR (if decide (f < 1 / 2) then n
       else if decide (1 / 2 < f) then (n + 1)%Z
       else if Z.even n then n else (n + 1)%Z).

(** [np.mean(np.round(pred) == y)] of two arrays of one length, as
    the training cell compares them ([forward_pass] returns
    [len(y)] predictions); no value is given to the comparison of arrays
    of different lengths. *)
Definition accuracy (pred y : vec) : option R :=
  if decide (length pred = length y)
  then Some (Np.sum (zip_with (λ p t, Np.of_bool (bool_decide (round p = t)))
                       pred y)
             / INR (length y))
  else None.

(** What one round of the training loop prints. *)
Record report := Report {
  epoch : nat;
  test_loss : R;
  train_loss : R;
  accuracies : option (R * R)  (** test, train; classification only *)
}.

(** [eta] and [n_epochs] as the training cell sets them. *)
Definition eta (do_classification : bool) : R :=
  if do_classification then 1e-4 else 1e-5.

Definition n_epochs (do_classification : bool) : nat :=
  if do_classification then 3%nat else 10%nat.

(** The body of [for epoch in ...], over the epochs still to run. *)
Fixpoint train_epochs (do_classification : bool) (epochs : list nat)
    (x_train : list vec) (y_train : vec) (x_test : list vec) (y_test : vec)
    (dgn_weights dgn_hyperplanes : list loc) (eta : R) (σ : store)
    : option (list report * store) :=
  match epochs with
  | [] => Some ([], σ)
  | epoch :: epochs =>
      '(train_loss, train_pred, σ) ←
        forward_pass (step do_classification) x_train y_train
          dgn_weights dgn_hyperplanes eta (bool_decide (0 < epoch)%nat) σ;
      '(test_loss, test_pred, σ) ←
        forward_pass (step do_classification) x_test y_test
          dgn_weights dgn_hyperplanes eta false σ;
      accuracies ←
        (if do_classification
         then accuracy_train ← accuracy train_pred y_train;
              accuracy ← accuracy test_pred y_test;
              Some (Some (accuracy, accuracy_train))
         else Some None);
      '(reports, σ) ←
        train_epochs do_classification epochs x_train y_train x_test y_test
          dgn_weights dgn_hyperplanes eta σ;
      Some (Report epoch test_loss train_loss accuracies :: reports, σ)
  end.

(** [for epoch in range(0, n_epochs + 1): ...]: the lines printed and the
    store the loop leaves. *)
Definition train (do_classification : bool) (n_epochs : nat)
    (x_train : list vec) (y_train : vec) (x_test : list vec) (y_test : vec)
    (dgn_weights dgn_hyperplanes : list loc) (eta : R) (σ : store)
    : option (list report * store) :=
  train_epochs do_classification (seq 0 (n_epochs + 1))
    x_train y_train x_test y_test dgn_weights dgn_hyperplanes eta σ.

(** * Part II: notions the statements use *)

(** [a[i, j]] and [a[i, j, m]]; [None] outside the array. *)
Definition item2 {A} (a : list (list A)) (i j : nat) : option A :=
  match a !! i with Some r => r !! j | None => None end.

Definition item3 {A} (a : list (list (list A))) (i j m : nat) : option A :=
  match a !! i with Some r => item2 r j m | None => None end.

(** The extents of a three-dimensional array along its two last axes. *)
Definition shape (a : tensor3) : list (list nat) :=
  fmap (M := list) (fmap (M := list) length) a.

(** No two layers share a weight array, and no weight array serves as a
    hyperplane array: the lists hold distinct objects, as the list
    comprehensions of the notebook build them. *)
Definition separate (weights hyperplanes : list loc) : Prop :=
  NoDup weights ∧ ∀ l, l ∈ weights → l ∉ hyperplanes.

(** An array of shape (n, b, i). *)
Definition has_shape (n b i : nat) (a : tensor3) : Prop :=
  shape a = replicate n (replicate b i).

(** The arrays of the layers agree with one another: with [n_in] incoming
    activations, the weights of a layer of [n] neurons have shape
    (n, n_branches, n_in + 1), its hyperplanes (n, n_branches, n_side), and
    the next layer has [n] incoming activations. *)
Fixpoint well_shaped (σ : store) (n_branches n_side n_in : nat)
    (layers : list (loc * loc)) : Prop :=
  match layers with
  | [] => True
  | (lw, lh) :: layers =>
      ∃ n w h,
        (0 < n)%nat ∧ σ !! lw = Some w ∧ σ !! lh = Some h ∧
        has_shape n n_branches (S n_in) w ∧
        has_shape n n_branches n_side h ∧
        well_shaped σ n_branches n_side n layers
  end.

(** From the spec: the effective weight vector of a neuron is the sum of
    the weight vectors of that neuron's own branches whose gate is on. *)
Definition spec_effective_weights (gate_values : list (list bool))
    (w : tensor3) : option matrix :=
  if decide (length gate_values = length w)
  then mapM (λ p, Np.vecmat (Np.of_bool <$> p.1) p.2) (zip gate_values w)
  else None.


(** The slice [h_[:, :, :-1]] of one neuron. *)
Definition init_slice (m : matrix) : matrix :=
  (λ v, take (length v - 1) v) <$> m.

(** ** A network of one layer, one neuron and one branch *)

(** The weight array, all zeros, is at location 0 and the hyperplane array
    at location 1; with [hyperplane_bias_magnitude = 1] and inputs [1, 1]
    the hyperplane [1, 0, 0] opens the gate of the single branch. *)
Definition example_store : store :=
  <[0%nat := [[[0; 0; 0]]]]> (<[1%nat := [[[1; 0; 0]]]]> ∅).

(** A network of one layer of two neurons with one branch each. *)
Definition example_store_two : store :=
  <[0%nat := [[[0; 0; 0]]; [[0; 0; 0]]]]>
    (<[1%nat := [[[1; 0; 0]]; [[1; 0; 0]]]]> ∅).

(** A network of one layer of one neuron with two branches: with inputs
    [1, 1] the gate of the first branch is on and the gate of the second
    is off. *)
Definition example_store_gated : store :=
  <[0%nat := [[[0; 0; 0]; [5; 6; 7]]]]>
    (<[1%nat := [[[1; 0; 0]; [-1; 0; 0]]]]> ∅).

(** ** Further notions *)

(** The last layer has a single neuron: its weight array has one row. *)
Definition single_output (σ : store) (layers : list (loc * loc)) : Prop :=
  ∃ lw lh w, last layers = Some (lw, lh) ∧ σ !! lw = Some w ∧
             length w = 1%nat.

(** An array of zeros. *)
Definition all_zero (a : tensor3) : Prop :=
  Forall (Forall (Forall (λ x, x = 0))) a.

(** Equality of arrays of numbers whose entries are equal as reals. *)
Ltac array_eq :=
  repeat match goal with
         | |- @eq R _ _ => first [lra | field]
         | |- @eq _ _ _ => progress f_equal
         end.

(** * Part III: lemmas *)

Section np_facts.

Lemma mapM_lookup_l {A B} (f : A → option B) l k i x :
  mapM f l = Some k → l !! i = Some x →
  ∃ y, k !! i = Some y ∧ f x = Some y.
Proof.
  intros Hm Hl. apply mapM_Some_1 in Hm.
  destruct (Forall2_lookup_l _ _ _ _ _ Hm Hl) as (y & ? & ?); eauto.
Qed.

Lemma mapM_lookup_r {A B} (f : A → option B) l k i y :
  mapM f l = Some k → k !! i = Some y →
  ∃ x, l !! i = Some x ∧ f x = Some y.
Proof.
  intros Hm Hk. apply mapM_Some_1 in Hm.
  destruct (Forall2_lookup_r _ _ _ _ _ Hm Hk) as (x & ? & ?); eauto.
Qed.

Lemma gate_heaviside x :
  Np.astype_bool (Np.heaviside x 0) = bool_decide (0 < x).
Proof.
  unfold Np.astype_bool, Np.heaviside.
  repeat case_decide; repeat case_bool_decide; try done; lra.
Qed.

Lemma clip_bounds x lo hi : lo <= hi → lo <= Np.clip x lo hi <= hi.
Proof.
  intros. unfold Np.clip, Rmin, Rmax.
  repeat destruct (Rle_dec _ _); lra.
Qed.

Lemma dot31_item a b c i j v :
  Np.dot31 a b = Some c → item2 a i j = Some v →
  ∃ d, Np.dot v b = Some d ∧ item2 c i j = Some d.
Proof.
  unfold Np.dot31, Np.dot21, item2. intros Hc Hv.
  destruct (a !! i) as [m|] eqn:Hm; [|done]. simpl in Hv.
  destruct (mapM_lookup_l _ _ _ _ _ Hc Hm) as (r & Hr & Hmr).
  destruct (mapM_lookup_l _ _ _ _ _ Hmr Hv) as (d & Hd & Hvd).
  exists d. rewrite Hr. simpl. done.
Qed.

(** What in-place broadcasting does entry by entry. *)
Lemma broadcast_Forall2 {A B C} (f : A → B → option C) a b c :
  Np.broadcast f a b = Some c →
  Forall2 (λ x z, ∃ y, y ∈ b ∧ f x y = Some z) a c.
Proof.
  unfold Np.broadcast. case_decide as Hlen.
  - intros Hm. apply mapM_Some_1 in Hm.
    apply Forall2_same_length_lookup. split.
    + apply Forall2_length in Hm. rewrite length_zip in Hm. lia.
    + intros i x z Hx Hz.
      destruct (Forall2_lookup_r _ _ _ _ _ Hm Hz) as ([x' y] & Hxy & Hf).
      apply lookup_zip_Some in Hxy as [Hx' Hy]. simpl in *.
      assert (x' = x) as -> by congruence.
      exists y. split; [by eapply list_elem_of_lookup_2|done].
  - destruct b as [|y [|]]; try done.
    intros Hm. apply mapM_Some_1 in Hm.
    eapply Forall2_impl; [exact Hm|]. simpl. intros x z Hf.
    exists y. split; [apply list_elem_of_here|done].
Qed.

Lemma broadcast_lookup {A B C} (f : A → B → option C) a b c i x y :
  Np.broadcast f a b = Some c → a !! i = Some x → b !! i = Some y →
  ∃ z, c !! i = Some z ∧ f x y = Some z.
Proof.
  unfold Np.broadcast. case_decide as Hlen.
  - intros Hm Hx Hy.
    eapply mapM_lookup_l in Hm; [|by apply lookup_zip_Some]. done.
  - destruct b as [|y' [|]]; try done. intros Hm Hx Hy.
    destruct i; [|done]. simplify_eq/=.
    eapply mapM_lookup_l in Hm; [|done]. done.
Qed.

Lemma broadcast_length {A B C} (f : A → B → option C) a b c :
  Np.broadcast f a b = Some c → length c = length a.
Proof.
  intros H. apply broadcast_Forall2 in H. by apply Forall2_length in H.
Qed.

End np_facts.

Section loop_facts.

Lemma NoDup_zip_fst (weights hyperplanes : list loc) :
  NoDup weights → NoDup (zip weights hyperplanes).*1.
Proof.
  intros Hnd. revert hyperplanes.
  induction Hnd as [|l ws Hl Hnd IH]; intros [|lh hs]; simpl;
    try constructor; [|done].
  intros Hin. apply Hl.
  apply list_elem_of_fmap in Hin as ([a b] & -> & Hin).
  by apply elem_of_zip_l in Hin.
Qed.

Lemma separate_zip weights hyperplanes :
  separate weights hyperplanes →
  NoDup (zip weights hyperplanes).*1 ∧
  ∀ l, l ∈ (zip weights hyperplanes).*1 → l ∉ (zip weights hyperplanes).*2.
Proof.
  intros [Hnd Hdisj]. split; [by apply NoDup_zip_fst|].
  intros l Hin Hin'.
  apply list_elem_of_fmap in Hin as ([a b] & -> & Hin).
  apply list_elem_of_fmap in Hin' as ([a' b'] & Heq & Hin').
  apply elem_of_zip_l in Hin. apply elem_of_zip_r in Hin'.
  simpl in *. subst. by eapply Hdisj.
Qed.

(** The layers of one pass: [acts] lists the outputs of the layers in
    order, each layer reads its arrays as the store held them when the
    pass began, and an updating pass leaves in the weight array of a layer
    what the body of that layer computed. *)
Lemma for_layers_trace update layer layers : ∀ σ r_in r0 ro σ',
  NoDup layers.*1 → (∀ l, l ∈ layers.*1 → l ∉ layers.*2) →
  for_layers update layer layers σ r_in r0 = Some (ro, σ') →
  ∃ acts : list vec,
    length acts = length layers ∧
    ro = from_option Some r0 (last acts) ∧
    (∀ l, l ∉ layers.*1 → σ' !! l = σ !! l) ∧
    ∀ k lw lh, layers !! k = Some (lw, lh) →
      ∃ w h a y w',
        σ !! lw = Some w ∧ σ !! lh = Some h ∧
        (r_in :: acts) !! k = Some a ∧ acts !! k = Some y ∧
        layer w h a = Some (y, w') ∧
        σ' !! lw = Some (if update then w' else w).
Proof.
  induction layers as [|[lw lh] layers IH]; intros σ r_in r0 ro σ' Hnd Hdisj Hrun.
  - simpl in Hrun. simplify_eq. exists []. split_and!; try done.
  - simpl in Hrun.
    destruct (σ !! lw) as [w|] eqn:Hw; [|done]. simpl in Hrun.
    destruct (σ !! lh) as [h|] eqn:Hh; [|done]. simpl in Hrun.
    destruct (layer w h r_in) as [[y w1]|] eqn:Hlayer; [|done].
    simpl in Hrun, Hnd. apply NoDup_cons in Hnd as [Hlw Hnd].
    apply IH in Hrun as (acts & Hlen & Hro & Hframe & Hk); [|done|].
    2:{ intros l Hl Hl'. eapply (Hdisj l); simpl; by apply list_elem_of_further. }
    exists (y :: acts). split_and!.
    + simpl. by rewrite Hlen.
    + rewrite Hro. destruct acts as [|y' acts]; [done|].
      rewrite last_cons_cons.
      destruct (last (y' :: acts)) eqn:Hlast; [done|].
      by apply last_None in Hlast.
    + intros l Hl. apply not_elem_of_cons in Hl as [Hne Hl].
      rewrite Hframe by done. destruct update; [|done].
      by rewrite lookup_insert_ne.
    + intros [|k] lw' lh' Hlookup; simpl in Hlookup.
      * simplify_eq. exists w, h, r_in, y, w1. split_and!; try done.
        rewrite Hframe by done. destruct update; [|done].
        by rewrite lookup_insert_eq.
      * destruct (Hk _ _ _ Hlookup) as (w' & h' & a & y' & w1' & Hw' & Hh' & ? & ? & ? & ?).
        exists w', h', a, y', w1'. split_and!; try done.
        -- destruct update; [|done]. rewrite lookup_insert_ne in Hw'; [done|].
           intros ->. apply Hlw. apply list_elem_of_fmap.
           exists (lw', lh'). split; [done|]. by eapply list_elem_of_lookup_2.
        -- destruct update; [|done]. rewrite lookup_insert_ne in Hh'; [done|].
           intros ->. apply (Hdisj lh'); simpl; [apply list_elem_of_here|].
           apply list_elem_of_further, list_elem_of_fmap.
           exists (lw', lh'). split; [done|]. by eapply list_elem_of_lookup_2.
Qed.

(** A pass that does not update writes nothing. *)
Lemma for_layers_no_update layer layers : ∀ σ r_in r0 ro σ',
  for_layers false layer layers σ r_in r0 = Some (ro, σ') → σ' = σ.
Proof.
  induction layers as [|[lw lh] layers IH]; intros σ r_in r0 ro σ' Hrun;
    simpl in Hrun.
  - by simplify_eq.
  - destruct (σ !! lw) as [w|]; [|done]. simpl in Hrun.
    destruct (σ !! lh) as [h|]; [|done]. simpl in Hrun.
    destruct (layer w h r_in) as [[y w1]|]; [|done]. simpl in Hrun. eauto.
Qed.

(** Only the arrays of [weights] are written. *)
Lemma for_layers_frame update layer layers : ∀ σ r_in r0 ro σ' l,
  for_layers update layer layers σ r_in r0 = Some (ro, σ') →
  l ∉ layers.*1 → σ' !! l = σ !! l.
Proof.
  induction layers as [|[lw lh] layers IH]; intros σ r_in r0 ro σ' l Hrun Hl;
    simpl in Hrun.
  - by simplify_eq.
  - destruct (σ !! lw) as [w|]; [|done]. simpl in Hrun.
    destruct (σ !! lh) as [h|]; [|done]. simpl in Hrun.
    destruct (layer w h r_in) as [[y w1]|]; [|done]. simpl in Hrun, Hl.
    apply not_elem_of_cons in Hl as [Hne Hl].
    rewrite (IH _ _ _ _ _ _ Hrun Hl). destruct update; [|done].
    by rewrite lookup_insert_ne.
Qed.

End loop_facts.

Section layer_facts.

Lemma isub_item a b c i j m x y :
  Np.isub a b = Some c →
  item3 a i j m = Some x → item3 b i j m = Some y →
  item3 c i j m = Some (x - y).
Proof.
  unfold Np.isub, item3, item2. intros Hc Ha Hb.
  destruct (a !! i) as [ai|] eqn:Hai; [|done].
  destruct (b !! i) as [bi|] eqn:Hbi; [|done].
  destruct (ai !! j) as [aij|] eqn:Haij; [|done].
  destruct (bi !! j) as [bij|] eqn:Hbij; [|done].
  destruct (broadcast_lookup _ _ _ _ _ _ _ Hc Hai Hbi) as (ci & -> & Hci).
  destruct (broadcast_lookup _ _ _ _ _ _ _ Hci Haij Hbij) as (cij & -> & Hcij).
  destruct (broadcast_lookup _ _ _ _ _ _ _ Hcij Ha Hb) as (z & -> & Hz).
  by simplify_eq.
Qed.

Lemma isub_shape a b c : Np.isub a b = Some c → shape c = shape a.
Proof.
  unfold Np.isub, shape. intros Hc. apply broadcast_Forall2 in Hc.
  induction Hc as [|ai ci a c (bi & _ & Hci) _ IH]; [done|].
  simpl. f_equal; [|done]. apply broadcast_Forall2 in Hci.
  clear IH. induction Hci as [|aij cij ai ci (bij & _ & Hcij) _ IH]; [done|].
  simpl. f_equal; [|done]. by apply broadcast_length in Hcij.
Qed.

(** Subtracting a row of zeros leaves the row of [a] as it was. *)
Lemma isub_row_zero a b c i j aij bij :
  Np.isub a b = Some c →
  item2 a i j = Some aij → item2 b i j = Some bij →
  Forall (λ y, y = 0) bij →
  item2 c i j = Some aij.
Proof.
  unfold Np.isub, item2. intros Hc Ha Hb Hzero.
  destruct (a !! i) as [ai|] eqn:Hai; [|done].
  destruct (b !! i) as [bi|] eqn:Hbi; [|done].
  destruct (broadcast_lookup _ _ _ _ _ _ _ Hc Hai Hbi) as (ci & -> & Hci).
  destruct (broadcast_lookup _ _ _ _ _ _ _ Hci Ha Hb) as (cij & -> & Hcij).
  f_equal. apply broadcast_Forall2 in Hcij. symmetry.
  apply list_eq_Forall2. eapply Forall2_impl; [exact Hcij|].
  simpl. intros x z (y & Hy & Hz).
  rewrite Forall_forall in Hzero. apply Hzero in Hy. simplify_eq. lra.
Qed.

Lemma weight_decrement_lookup lr (g : list (list bool)) (grad : matrix) i gi gr :
  g !! i = Some gi → grad !! i = Some gr →
  weight_decrement lr g grad !! i
  = Some ((λ b, (λ x, lr * Np.of_bool b * x) <$> gr) <$> gi).
Proof.
  intros Hg Hgr. unfold weight_decrement.
  rewrite lookup_zip_with, Hg. simpl. by rewrite Hgr.
Qed.

Lemma weight_decrement_item lr (g : list (list bool)) (grad : matrix) i j m b d :
  item2 g i j = Some b → item2 grad i m = Some d →
  item3 (weight_decrement lr g grad) i j m = Some (lr * Np.of_bool b * d).
Proof.
  unfold item3, item2. intros Hb Hd.
  destruct (g !! i) as [gi|] eqn:Hgi; [|done].
  destruct (grad !! i) as [gr|] eqn:Hgr; [|done].
  rewrite (weight_decrement_lookup _ _ _ _ _ _ Hgi Hgr).
  rewrite list_lookup_fmap, Hb. simpl.
  by rewrite list_lookup_fmap, Hd.
Qed.

Lemma grad_square_loss_item t (r_out r_in : vec) i m y a :
  r_out !! i = Some y → r_in !! m = Some a →
  item2 (grad_square_loss t r_out r_in) i m = Some ((y - t) * a).
Proof.
  intros Hy Ha. unfold item2, grad_square_loss.
  rewrite list_lookup_fmap, Hy. simpl. by rewrite list_lookup_fmap, Ha.
Qed.

Lemma effective_weights_length g w e :
  effective_weights g w = Some e → length e = length g.
Proof.
  unfold effective_weights. intros He.
  destruct (Np.dot23 _ w) as [a|] eqn:Ha; [|done]. simpl in He.
  simplify_eq. unfold Np.sum_axis1. rewrite length_fmap.
  apply length_mapM in Ha. by rewrite length_fmap in Ha.
Qed.

Lemma gate_values_length h s g :
  gate_values h s = Some g → length g = length h.
Proof.
  unfold gate_values. intros Hg.
  destruct (Np.dot31 h s) as [a|] eqn:Ha; [|done]. simpl in Hg.
  simplify_eq. rewrite length_fmap. apply length_mapM in Ha. done.
Qed.

(** The steps of the body of the loop of [step_square_loss]. *)
Lemma layer_square_loss_inv lr t upd s w h a y w' :
  layer_square_loss lr t upd s w h a = Some (y, w') →
  ∃ g e,
    gate_values h s = Some g ∧ effective_weights g w = Some e ∧
    Np.dot21 e (1 :: a) = Some y ∧ length y = length h ∧
    if upd
    then Np.isub w (weight_decrement lr g (grad_square_loss t y (1 :: a)))
         = Some w'
    else w' = w.
Proof.
  unfold layer_square_loss, Np.hstack. intros H.
  destruct (gate_values h s) as [g|] eqn:Hg; [|done]. simpl in H.
  destruct (effective_weights g w) as [e|] eqn:He; [|done]. simpl in H.
  destruct (Np.dot21 e (1 :: a)) as [y0|] eqn:Hy; [|done]. simpl in H.
  assert (length y0 = length h) as Hlen.
  { apply length_mapM in Hy. apply effective_weights_length in He.
    apply gate_values_length in Hg. congruence. }
  destruct upd; simpl in H.
  - destruct (Np.isub w _) as [w1|] eqn:Hw; [|done]. simpl in H.
    simplify_eq. by exists g, e.
  - simplify_eq. by exists g, e.
Qed.

End layer_facts.

Section step_facts.

Lemma layer_bernoulli_inv lr eps t upd s w h a y w' :
  layer_bernoulli lr eps t upd s w h a = Some (y, w') →
  ∃ g e h_out,
    let h_in := inverse_sigmoid <$> (sigmoid 1 :: a) in
    let r_out_unclipped := sigmoid <$> h_out in
    gate_values h s = Some g ∧ effective_weights g w = Some e ∧
    Np.dot21 e h_in = Some h_out ∧ length h_out = length h ∧
    y = (λ p, Np.clip p eps (1 - eps)) <$> r_out_unclipped ∧
    if upd
    then Np.isub w (weight_decrement lr g
           (grad_bernoulli t y h_in (update_indicator eps t r_out_unclipped)))
         = Some w'
    else w' = w.
Proof.
  unfold layer_bernoulli, Np.hstack. intros H.
  destruct (gate_values h s) as [g|] eqn:Hg; [|done]. simpl in H.
  destruct (effective_weights g w) as [e|] eqn:He; [|done]. simpl in H.
  destruct (Np.dot21 e _) as [h_out|] eqn:Hy; [|done]. simpl in H.
  assert (length h_out = length h) as Hlen.
  { apply length_mapM in Hy. apply effective_weights_length in He.
    apply gate_values_length in Hg. congruence. }
  destruct upd; simpl in H.
  - destruct (Np.isub w _) as [w1|] eqn:Hw; [|done]. simpl in H.
    simplify_eq. by exists g, e, h_out.
  - simplify_eq. by exists g, e, h_out.
Qed.

Lemma step_square_loss_inv inputs weights hyperplanes bias lr t upd σ p loss σ' :
  step_square_loss inputs weights hyperplanes bias lr t upd σ
  = Some (p, loss, σ') →
  for_layers upd (layer_square_loss lr t upd (bias :: inputs))
    (zip weights hyperplanes) σ inputs None = Some (Some p, σ') ∧
  loss = (λ y, (t - y) ^ 2 / 2) <$> p.
Proof.
  unfold step_square_loss, Np.hstack. intros H.
  destruct (for_layers _ _ _ _ _ _) as [[[r|] σ1]|]; simpl in H; by simplify_eq.
Qed.

Lemma step_bernoulli_inv inputs weights hyperplanes bias lr eps t upd σ p loss σ' :
  step_bernoulli inputs weights hyperplanes bias lr eps t upd σ
  = Some (p, loss, σ') →
  for_layers upd (layer_bernoulli lr eps t upd (bias :: inputs))
    (zip weights hyperplanes) σ
    ((λ x, Np.clip (sigmoid x) eps (1 - eps)) <$> inputs) None
  = Some (Some p, σ') ∧
  loss = (λ y, - (t * ln y + (1 - t) * ln (1 - y))) <$> p.
Proof.
  unfold step_bernoulli, Np.hstack. intros H.
  destruct (for_layers _ _ _ _ _ _) as [[[r|] σ1]|]; simpl in H; by simplify_eq.
Qed.

End step_facts.

Section more_facts.

Lemma broadcast_sub_zeros (a b c : vec) :
  Np.broadcast (λ x y, Some (x - y)) a b = Some c →
  Forall (λ y, y = 0) b → c = a.
Proof.
  intros Hc Hzero. apply broadcast_Forall2 in Hc. symmetry.
  apply list_eq_Forall2. eapply Forall2_impl; [exact Hc|].
  simpl. intros x z (y & Hy & Hz).
  rewrite Forall_forall in Hzero. apply Hzero in Hy. simplify_eq. lra.
Qed.

Lemma broadcast2_sub_zeros (a b c : matrix) :
  Np.broadcast (Np.broadcast (λ x y, Some (x - y))) a b = Some c →
  Forall (Forall (λ y, y = 0)) b → c = a.
Proof.
  intros Hc Hzero. apply broadcast_Forall2 in Hc. symmetry.
  apply list_eq_Forall2. eapply Forall2_impl; [exact Hc|].
  simpl. intros x z (y & Hy & Hz).
  rewrite Forall_forall in Hzero. apply Hzero in Hy.
  symmetry. by eapply broadcast_sub_zeros.
Qed.

(** The output of a pass is the output of its last layer. *)
Lemma for_layers_output (P : vec → Prop) update layer layers :
  (∀ w h a y w', layer w h a = Some (y, w') → P y) →
  ∀ σ r_in r0 p σ',
    for_layers update layer layers σ r_in r0 = Some (Some p, σ') →
    (∀ y, r0 = Some y → P y) → P p.
Proof.
  intros Hlayer.
  induction layers as [|[lw lh] layers IH]; intros σ r_in r0 p σ' Hrun Hr0;
    simpl in Hrun.
  - simplify_eq. by apply Hr0.
  - destruct (σ !! lw) as [w|]; [|done]. simpl in Hrun.
    destruct (σ !! lh) as [h|]; [|done]. simpl in Hrun.
    destruct (layer w h r_in) as [[y w1]|] eqn:Hy; [|done]. simpl in Hrun.
    eapply IH; [exact Hrun|]. intros ? [= <-]. by eapply Hlayer.
Qed.

(** A pass that reads what [acts] records and writes nothing. *)
Lemma for_layers_replay layer layers σ : ∀ r_in r0 (acts : list vec),
  length acts = length layers →
  (∀ k lw lh, layers !! k = Some (lw, lh) →
     ∃ w h a y,
       σ !! lw = Some w ∧ σ !! lh = Some h ∧
       (r_in :: acts) !! k = Some a ∧ acts !! k = Some y ∧
       layer w h a = Some (y, w)) →
  for_layers false layer layers σ r_in r0
  = Some (from_option Some r0 (last acts), σ).
Proof.
  induction layers as [|[lw lh] layers IH]; intros r_in r0 acts Hlen Hk.
  - destruct acts; [done|]. simpl in Hlen. lia.
  - destruct acts as [|y acts]; simpl in Hlen; [lia|].
    destruct (Hk 0%nat lw lh eq_refl) as (w & h & a & y' & Hw & Hh & Ha & Hy & Hl).
    simpl in Ha, Hy.
    assert (a = r_in) as -> by congruence.
    assert (y' = y) as -> by congruence. simpl.
    rewrite Hw. simpl. rewrite Hh. simpl. rewrite Hl. simpl.
    rewrite (IH y (Some y) acts); [|lia|].
    + f_equal. f_equal. destruct acts as [|y' acts]; [done|].
      rewrite last_cons_cons.
      destruct (last (y' :: acts)) eqn:Hlast; [done|].
      by apply last_None in Hlast.
    + intros k lw' lh' Hlookup. by apply (Hk (S k)).
Qed.

Lemma layer_square_loss_no_update lr t s w h a y w' :
  layer_square_loss lr t true s w h a = Some (y, w') →
  layer_square_loss lr t false s w h a = Some (y, w).
Proof.
  unfold layer_square_loss. intros H.
  destruct (gate_values h s) as [g|]; [|done]. simpl in *.
  destruct (effective_weights g w) as [e|]; [|done]. simpl in *.
  destruct (Np.dot21 e _) as [y0|]; [|done]. simpl in *.
  destruct (Np.isub w _); [|done]. simpl in H. by simplify_eq.
Qed.

Lemma layer_bernoulli_no_update lr eps t s w h a y w' :
  layer_bernoulli lr eps t true s w h a = Some (y, w') →
  layer_bernoulli lr eps t false s w h a = Some (y, w).
Proof.
  unfold layer_bernoulli. intros H.
  destruct (gate_values h s) as [g|]; [|done]. simpl in *.
  destruct (effective_weights g w) as [e|]; [|done]. simpl in *.
  destruct (Np.dot21 e _) as [y0|]; [|done]. simpl in *.
  destruct (Np.isub w _); [|done]. simpl in H. by simplify_eq.
Qed.

(** An updating pass returns what the pass that does not update returns
    from the same store. *)
Lemma for_layers_update_irrelevant layer_t layer_f layers σ r_in r0 ro σ' :
  (∀ w h a y w', layer_t w h a = Some (y, w') → layer_f w h a = Some (y, w)) →
  NoDup layers.*1 → (∀ l, l ∈ layers.*1 → l ∉ layers.*2) →
  for_layers true layer_t layers σ r_in r0 = Some (ro, σ') →
  for_layers false layer_f layers σ r_in r0 = Some (ro, σ).
Proof.
  intros Hlayer Hnd Hdisj Hrun.
  apply for_layers_trace in Hrun as (acts & Hlen & -> & _ & Hk); [|done..].
  apply for_layers_replay; [done|].
  intros k lw lh Hlookup.
  destruct (Hk _ _ _ Hlookup) as (w & h & a & y & w' & ? & ? & ? & ? & ? & _).
  exists w, h, a, y. split_and!; try done. by eapply Hlayer.
Qed.

End more_facts.

Section update_facts.

Lemma isub_inactive lr (g : list (list bool)) (grad : matrix) w w' i j v :
  Np.isub w (weight_decrement lr g grad) = Some w' →
  length grad = length g →
  item2 g i j = Some false → item2 w i j = Some v →
  item2 w' i j = Some v.
Proof.
  intros Hsub Hlen Hg Hv. unfold item2 in Hg.
  destruct (g !! i) as [gi|] eqn:Hgi; [|done].
  destruct (lookup_lt_is_Some_2 grad i) as [gr Hgr].
  { rewrite Hlen. by eapply lookup_lt_Some. }
  eapply isub_row_zero; [exact Hsub|exact Hv| |].
  - unfold item2. rewrite (weight_decrement_lookup _ _ _ _ _ _ Hgi Hgr).
    rewrite list_lookup_fmap, Hg. done.
  - apply Forall_fmap, Forall_true. intros x. simpl. lra.
Qed.

Lemma layer_square_loss_frame lr t upd s w h a y w' :
  layer_square_loss lr t upd s w h a = Some (y, w') →
  ∃ gate, gate_values h s = Some gate ∧ shape w' = shape w ∧
    ∀ i j v, item2 gate i j = Some false → item2 w i j = Some v →
             item2 w' i j = Some v.
Proof.
  intros H. apply layer_square_loss_inv in H
    as (g & e & Hg & _ & _ & Hlen & Hsub).
  exists g. destruct upd; [|by subst].
  split_and!; [done|by eapply isub_shape|].
  intros i j v. eapply isub_inactive; [exact Hsub|].
  unfold grad_square_loss. rewrite length_fmap.
  apply gate_values_length in Hg. congruence.
Qed.

Lemma grad_bernoulli_length t (y h_in : vec) eps (q : vec) :
  length y = length q →
  length (grad_bernoulli t y h_in (update_indicator eps t q)) = length q.
Proof.
  intros Hlen. unfold grad_bernoulli, update_indicator.
  rewrite length_zip_with, length_fmap. lia.
Qed.

Lemma layer_bernoulli_frame lr eps t upd s w h a y w' :
  layer_bernoulli lr eps t upd s w h a = Some (y, w') →
  ∃ gate, gate_values h s = Some gate ∧ shape w' = shape w ∧
    ∀ i j v, item2 gate i j = Some false → item2 w i j = Some v →
             item2 w' i j = Some v.
Proof.
  intros H. apply layer_bernoulli_inv in H
    as (g & e & h_out & Hg & _ & _ & Hlen & -> & Hsub).
  exists g. destruct upd; [|by subst].
  split_and!; [done|by eapply isub_shape|].
  intros i j v. eapply isub_inactive; [exact Hsub|].
  rewrite grad_bernoulli_length by (by rewrite !length_fmap).
  rewrite length_fmap. apply gate_values_length in Hg. congruence.
Qed.

(** What a pass leaves in the store, for a loop body that keeps the
    shape of its weight array and the branches whose gate is off. *)
Lemma for_layers_frame_layers upd layer s weights hyperplanes σ r_in r0 ro σ' :
  (∀ w h a y w', layer w h a = Some (y, w') →
     ∃ gate, gate_values h s = Some gate ∧ shape w' = shape w ∧
       ∀ i j v, item2 gate i j = Some false → item2 w i j = Some v →
                item2 w' i j = Some v) →
  separate weights hyperplanes →
  for_layers upd layer (zip weights hyperplanes) σ r_in r0 = Some (ro, σ') →
  (∀ lh, lh ∈ hyperplanes → σ' !! lh = σ !! lh) ∧
  (∀ l, l ∉ weights → σ' !! l = σ !! l) ∧
  ∀ k lw lh, weights !! k = Some lw → hyperplanes !! k = Some lh →
    ∃ w h w' gate,
      σ !! lw = Some w ∧ σ !! lh = Some h ∧ σ' !! lw = Some w' ∧
      gate_values h s = Some gate ∧ shape w' = shape w ∧
      ∀ i j v, item2 gate i j = Some false → item2 w i j = Some v →
               item2 w' i j = Some v.
Proof.
  intros Hlayer Hsep Hrun.
  assert (∀ l, l ∉ weights → σ' !! l = σ !! l) as Hframe.
  { intros l Hl. eapply for_layers_frame; [exact Hrun|].
    intros Hin. apply Hl.
    apply list_elem_of_fmap in Hin as ([a b] & -> & Hin).
    by apply elem_of_zip_l in Hin. }
  split_and!; [|done|].
  { intros lh Hlh. apply Hframe. intros Hin. by apply (proj2 Hsep lh). }
  apply separate_zip in Hsep as [Hnd Hdisj].
  apply for_layers_trace in Hrun as (acts & _ & _ & _ & Hk); [|done..].
  intros k lw lh Hlw Hlh.
  destruct (Hk k lw lh) as (w & h & a & y & w' & Hw & Hh & _ & _ & Hl & Hw').
  { by apply lookup_zip_Some. }
  destruct (Hlayer _ _ _ _ _ Hl) as (gate & Hgate & Hshape & Hoff).
  exists w, h, (if upd then w' else w), gate.
  split_and!; try done; by destruct upd.
Qed.

End update_facts.

Section bernoulli_facts.

Lemma update_indicator_lookup eps t (q : vec) i x :
  q !! i = Some x →
  update_indicator eps t q !! i = Some (bool_decide (Rabs (t - x) > eps)).
Proof.
  intros Hx. unfold update_indicator. by rewrite list_lookup_fmap, Hx.
Qed.

Lemma grad_bernoulli_lookup t (r_out h_in : vec) (ind : list bool) i y u :
  r_out !! i = Some y → ind !! i = Some u →
  grad_bernoulli t r_out h_in ind !! i
  = Some ((λ x, (y - t) * x * Np.of_bool u) <$> h_in).
Proof.
  intros Hy Hu. unfold grad_bernoulli.
  rewrite lookup_zip_with, Hy. simpl. by rewrite Hu.
Qed.

(** A unit whose update indicator is off keeps all its weights. *)
Lemma isub_unit_skipped lr (g : list (list bool)) t (r_out h_in : vec)
    (ind : list bool) w w' i :
  Np.isub w (weight_decrement lr g (grad_bernoulli t r_out h_in ind))
  = Some w' →
  length g = length ind → length r_out = length ind →
  ind !! i = Some false →
  w' !! i = w !! i.
Proof.
  intros Hsub Hg Hr Hi.
  destruct (w !! i) as [wi|] eqn:Hwi.
  - destruct (lookup_lt_is_Some_2 g i) as [gi Hgi].
    { rewrite Hg. by eapply lookup_lt_Some. }
    destruct (lookup_lt_is_Some_2 r_out i) as [y Hy].
    { rewrite Hr. by eapply lookup_lt_Some. }
    pose proof (grad_bernoulli_lookup t _ h_in _ _ _ _ Hy Hi) as Hgrad.
    pose proof (weight_decrement_lookup lr _ _ _ _ _ Hgi Hgrad) as Hdec.
    unfold Np.isub in Hsub.
    destruct (broadcast_lookup _ _ _ _ _ _ _ Hsub Hwi Hdec) as (wi' & -> & Hwi').
    f_equal. eapply broadcast2_sub_zeros; [exact Hwi'|].
    apply Forall_fmap, Forall_true. intros b.
    apply Forall_fmap, Forall_fmap, Forall_true. intros x. simpl. lra.
  - apply lookup_ge_None. apply lookup_ge_None in Hwi.
    unfold Np.isub in Hsub. apply broadcast_length in Hsub. lia.
Qed.

End bernoulli_facts.

Section init_facts.

Lemma sum_squares_nonneg (v : vec) : 0 <= Np.sum ((λ x, x * x) <$> v).
Proof.
  unfold Np.sum. induction v as [|x v IH]; csimpl; [lra|].
  pose proof (Rle_0_sqr x) as Hx. unfold Rsqr in Hx. lra.
Qed.

Lemma sum_squares_scaled n (v : vec) :
  n ≠ 0 →
  Np.sum ((λ x, x * x) <$> ((λ x, x / n) <$> v))
  = Np.sum ((λ x, x * x) <$> v) / (n * n).
Proof.
  intros Hn. unfold Np.sum. induction v as [|x v IH]; csimpl.
  - unfold Rdiv. lra.
  - rewrite IH. field. done.
Qed.

Lemma sum_squares2_nonneg m : 0 <= sum_squares2 m.
Proof.
  unfold sum_squares2, Np.sum at 1. induction m as [|v m IH]; csimpl; [lra|].
  pose proof (sum_squares_nonneg v). lra.
Qed.

Lemma sum_squares2_scaled n m :
  n ≠ 0 →
  sum_squares2 (fmap (M := list) (fmap (M := list) (λ x, x / n)) m)
  = sum_squares2 m / (n * n).
Proof.
  intros Hn. unfold sum_squares2, Np.sum at 1 3.
  induction m as [|v m IH]; csimpl.
  - unfold Rdiv. lra.
  - rewrite IH, sum_squares_scaled by done. field. done.
Qed.

Lemma init_slice_scaled n m :
  init_slice (fmap (M := list) (fmap (M := list) (λ x, x / n)) m)
  = fmap (M := list) (fmap (M := list) (λ x, x / n)) (init_slice m).
Proof.
  unfold init_slice. rewrite <- !list_fmap_compose.
  apply list_fmap_ext. intros _ v _. simpl.
  by rewrite length_fmap, fmap_take.
Qed.

Lemma norm_normalised m :
  norm m ≠ 0 →
  norm (fmap (M := list) (fmap (M := list) (λ x, x / norm m)) m) = 1.
Proof.
  intros Hn. unfold norm at 1.
  rewrite sum_squares2_scaled by done.
  unfold norm.
  rewrite sqrt_sqrt by apply sum_squares2_nonneg.
  assert (sum_squares2 m ≠ 0) as Hs.
  { intros Hz. apply Hn. unfold norm. rewrite Hz. apply sqrt_0. }
  replace (sum_squares2 m / sum_squares2 m) with 1 by (field; done).
  apply sqrt_1.
Qed.

End init_facts.

Section shape_facts.

Lemma has_shape_lookup n b i (a : tensor3) k m :
  has_shape n b i a → a !! k = Some m →
  length m = b ∧ Forall (λ v, length v = i) m.
Proof.
  unfold has_shape, shape. intros Hs Hm.
  assert (fmap (M := list) length <$> a !! k = Some (replicate b i)) as Hk.
  { rewrite <- list_lookup_fmap, Hs. apply lookup_replicate_2.
    apply lookup_lt_Some in Hm.
    apply (f_equal length) in Hs. rewrite length_fmap, length_replicate in Hs.
    lia. }
  rewrite Hm in Hk. simpl in Hk. injection Hk as Hk. split.
  - apply (f_equal length) in Hk. by rewrite length_fmap, length_replicate in Hk.
  - apply Forall_forall. intros v Hv.
    apply list_elem_of_lookup in Hv as [j Hj].
    assert (length <$> m !! j = Some i) as Hi.
    { rewrite <- list_lookup_fmap, Hk. apply lookup_replicate_2.
      apply lookup_lt_Some in Hj.
      apply (f_equal length) in Hk.
      rewrite length_fmap, length_replicate in Hk. lia. }
    rewrite Hj in Hi. by injection Hi.
Qed.

Lemma has_shape_length n b i (a : tensor3) : has_shape n b i a → length a = n.
Proof.
  unfold has_shape, shape. intros Hs. apply (f_equal length) in Hs.
  by rewrite length_fmap, length_replicate in Hs.
Qed.

Lemma has_shape_Forall n b i (a : tensor3) :
  has_shape n b i a →
  Forall (λ m, length m = b ∧ Forall (λ v, length v = i) m) a.
Proof.
  intros Hs. apply Forall_forall. intros m Hm.
  apply list_elem_of_lookup in Hm as [k Hk]. by eapply has_shape_lookup.
Qed.

Lemma has_shape_intro n b i (a : tensor3) :
  length a = n →
  Forall (λ m, length m = b ∧ Forall (λ v, length v = i) m) a →
  has_shape n b i a.
Proof.
  unfold has_shape, shape. intros <- Ha.
  induction Ha as [|m a [Hb Hm] _ IH]; [done|].
  simpl. f_equal; [|done]. rewrite <- Hb. clear Hb.
  induction Hm as [|v m Hv _ IHm]; [done|]. simpl. by f_equal.
Qed.

Lemma mapM_total {A B} (f : A → option B) (P : B → Prop) l :
  Forall (λ x, ∃ y, f x = Some y ∧ P y) l →
  ∃ k, mapM f l = Some k ∧ length k = length l ∧ Forall P k.
Proof.
  induction 1 as [|x l (y & Hy & HP) _ (k & Hk & Hlen & HPk)].
  - by exists [].
  - exists (y :: k). simpl. rewrite Hy. simpl. rewrite Hk. simpl.
    split_and!; [done|by rewrite Hlen|by constructor].
Qed.

Lemma dot_total (a b : vec) :
  length a = length b → ∃ d, Np.dot a b = Some d.
Proof. intros Hlen. unfold Np.dot. rewrite decide_True by done. eauto. Qed.

Lemma vsum_length n (a : matrix) :
  Forall (λ r, length r = n) a → length (Np.vsum n a) = n.
Proof.
  unfold Np.vsum. induction 1 as [|r a Hr _ IH]; simpl.
  - apply length_replicate.
  - rewrite length_zip_with, IH, Hr. lia.
Qed.

Lemma vecmat_total (a : vec) (m : matrix) i :
  (0 < length m)%nat → length a = length m →
  Forall (λ v, length v = i) m →
  ∃ v, Np.vecmat a m = Some v ∧ length v = i.
Proof.
  intros Hpos Hlen Hm. unfold Np.vecmat. rewrite decide_True by done.
  eexists. split; [done|].
  assert (Np.ncols m = i) as ->.
  { destruct Hm as [|v m Hv _]; simpl in *; [lia|done]. }
  apply vsum_length. clear Hpos. revert a Hlen.
  induction Hm as [|v m Hv _ IH]; intros [|x a] Hlen; simpl in *;
    try done.
  constructor; [by rewrite length_fmap|]. apply IH. lia.
Qed.

End shape_facts.

Section total_facts.

Lemma dot21_total (a : matrix) (b : vec) :
  Forall (λ r, length r = length b) a →
  ∃ c, Np.dot21 a b = Some c ∧ length c = length a.
Proof.
  intros Ha. unfold Np.dot21.
  destruct (mapM_total (λ row, Np.dot row b) (λ _, True) a)
    as (c & Hc & Hlen & _); [|by exists c].
  eapply Forall_impl; [exact Ha|]. simpl. intros r Hr.
  destruct (dot_total r b Hr) as [d Hd]. by exists d.
Qed.

Lemma gate_values_total h s n b :
  has_shape n b (length s) h →
  ∃ g, gate_values h s = Some g ∧ length g = n ∧
       Forall (λ r, length r = b) g.
Proof.
  intros Hs. unfold gate_values, Np.dot31.
  destruct (mapM_total (λ m, Np.dot21 m s) (λ c, length c = b) h)
    as (a & Ha & Hlen & Hrows).
  { eapply Forall_impl; [by eapply has_shape_Forall|]. simpl.
    intros m [Hb Hm]. destruct (dot21_total m s Hm) as (c & Hc & Hlenc).
    exists c. split; [done|congruence]. }
  rewrite Ha. simpl. eexists. split; [done|]. split.
  - rewrite length_fmap, Hlen. by eapply has_shape_length.
  - apply Forall_fmap. eapply Forall_impl; [exact Hrows|]. simpl.
    intros c Hc. by rewrite length_fmap.
Qed.

Lemma effective_weights_total (g : list (list bool)) w n b i :
  (0 < n)%nat → (0 < b)%nat →
  Forall (λ r, length r = b) g → has_shape n b i w →
  ∃ e, effective_weights g w = Some e ∧ length e = length g ∧
       Forall (λ r, length r = i) e.
Proof.
  intros Hn Hb Hg Hw. unfold effective_weights, Np.dot23.
  assert (Np.depth w = i) as ->.
  { pose proof (has_shape_length _ _ _ _ Hw) as Hlen.
    destruct w as [|m w]; simpl in *; [lia|].
    destruct (has_shape_lookup _ _ _ _ 0%nat m Hw eq_refl) as [Hm Hrows].
    destruct Hrows as [|v m' Hv _]; simpl in *; [lia|done]. }
  destruct (mapM_total
              (λ row : vec, mapM (λ m : matrix, Np.vecmat row m) w)
              (λ c : matrix, Forall (λ v, length v = i) c)
              (fmap (M := list) (fmap (M := list) Np.of_bool) g))
    as (a & Ha & Hlen & Hrows).
  { apply Forall_fmap. eapply Forall_impl; [exact Hg|]. simpl.
    intros r Hr.
    destruct (mapM_total (λ m : matrix, Np.vecmat (Np.of_bool <$> r) m)
                (λ v, length v = i) w) as (c & Hc & _ & Hci).
    - eapply Forall_impl; [by eapply has_shape_Forall|]. simpl.
      intros m [Hm Hrows]. apply vecmat_total; [lia| |done].
      rewrite length_fmap. congruence.
    - by exists c. }
  rewrite Ha. simpl. eexists. split; [done|]. unfold Np.sum_axis1. split.
  - by rewrite length_fmap, Hlen, length_fmap.
  - apply Forall_fmap. eapply Forall_impl; [exact Hrows|]. simpl.
    intros c Hc. by apply vsum_length.
Qed.

Lemma broadcast_total {A B C} (f : A → B → option C) a b :
  Forall2 (λ x y, is_Some (f x y)) a b → is_Some (Np.broadcast f a b).
Proof.
  intros Hab. unfold Np.broadcast.
  rewrite decide_True by (symmetry; by eapply Forall2_length).
  apply mapM_is_Some_2.
  induction Hab as [|x y a b Hxy _ IH]; simpl; by constructor.
Qed.

Lemma isub_total w d n b i :
  has_shape n b i w → has_shape n b i d → is_Some (Np.isub w d).
Proof.
  intros Hw Hd. unfold Np.isub. apply broadcast_total.
  apply Forall2_same_length_lookup. split.
  { apply has_shape_length in Hw, Hd. congruence. }
  intros k wm dm Hwm Hdm.
  destruct (has_shape_lookup _ _ _ _ _ _ Hw Hwm) as [Hwb Hwi].
  destruct (has_shape_lookup _ _ _ _ _ _ Hd Hdm) as [Hdb Hdi].
  apply broadcast_total. apply Forall2_same_length_lookup.
  split; [congruence|]. intros j wv dv Hwv Hdv.
  apply broadcast_total. apply Forall2_same_length_lookup. split.
  - rewrite Forall_forall in Hwi, Hdi.
    rewrite (Hwi wv), (Hdi dv); [done|by eapply list_elem_of_lookup_2..].
  - intros. done.
Qed.

Lemma weight_decrement_shape lr (g : list (list bool)) (grad : matrix) n b i :
  length g = n → length grad = n →
  Forall (λ r, length r = b) g → Forall (λ r, length r = i) grad →
  has_shape n b i (weight_decrement lr g grad).
Proof.
  intros Hg Hgrad Hgb Hgi. apply has_shape_intro.
  - unfold weight_decrement. rewrite length_zip_with. lia.
  - apply Forall_forall. intros m Hm.
    apply list_elem_of_lookup in Hm as [k Hk].
    unfold weight_decrement in Hk.
    apply lookup_zip_with_Some in Hk as (gi & gr & -> & Hgi' & Hgr).
    rewrite Forall_forall in Hgb. rewrite Forall_forall in Hgi.
    split.
    + rewrite length_fmap. apply Hgb. by eapply list_elem_of_lookup_2.
    + apply Forall_fmap, Forall_true. intros x. simpl.
      rewrite length_fmap. apply Hgi. by eapply list_elem_of_lookup_2.
Qed.

End total_facts.

Section returns.

Lemma layer_square_loss_total lr t upd s w h r_in n b :
  (0 < n)%nat → (0 < b)%nat →
  has_shape n b (S (length r_in)) w → has_shape n b (length s) h →
  ∃ y w', layer_square_loss lr t upd s w h r_in = Some (y, w') ∧
          length y = n ∧ shape w' = shape w.
Proof.
  intros Hn Hb Hw Hh. unfold layer_square_loss, Np.hstack.
  destruct (gate_values_total _ _ _ _ Hh) as (g & -> & Hg & Hgb). simpl.
  destruct (effective_weights_total g w n b _ Hn Hb Hgb Hw)
    as (e & -> & He & Hei). simpl.
  destruct (dot21_total e (1 :: r_in)) as (y & -> & Hy); [done|]. simpl.
  assert (length y = n) as Hyn by congruence.
  destruct upd; simpl; [|by exists y, w].
  destruct (isub_total w
              (weight_decrement lr g (grad_square_loss t y (1 :: r_in)))
              n b (S (length r_in))) as [w' Hw']; [done| |].
  - apply weight_decrement_shape; [done| |done|].
    + unfold grad_square_loss. by rewrite length_fmap.
    + unfold grad_square_loss. apply Forall_fmap, Forall_true.
      intros x. simpl. by rewrite length_fmap.
  - rewrite Hw'. simpl. exists y, w'.
    split_and!; [done..|]. by eapply isub_shape.
Qed.

Lemma layer_bernoulli_total lr eps t upd s w h r_in n b :
  (0 < n)%nat → (0 < b)%nat →
  has_shape n b (S (length r_in)) w → has_shape n b (length s) h →
  ∃ y w', layer_bernoulli lr eps t upd s w h r_in = Some (y, w') ∧
          length y = n ∧ shape w' = shape w.
Proof.
  intros Hn Hb Hw Hh. unfold layer_bernoulli, Np.hstack.
  destruct (gate_values_total _ _ _ _ Hh) as (g & -> & Hg & Hgb). simpl.
  destruct (effective_weights_total g w n b _ Hn Hb Hgb Hw)
    as (e & -> & He & Hei). simpl.
  match goal with
  | |- context [Np.dot21 e ?v] =>
      destruct (dot21_total e v) as (h_out & -> & Hy)
  end.
  { eapply Forall_impl; [exact Hei|]. simpl. intros r ->.
    by rewrite length_fmap. }
  simpl. assert (length h_out = n) as Hyn by congruence.
  destruct upd; simpl.
  2:{ eexists _, w. split_and!; [done| |done]. by rewrite !length_fmap. }
  match goal with
  | |- context [Np.isub w ?d] =>
      destruct (isub_total w d n b (S (length r_in))) as [w' Hw']
  end; [done| |].
  - apply weight_decrement_shape; [done| |done|].
    + unfold grad_bernoulli, update_indicator.
      rewrite length_zip_with, !length_fmap. lia.
    + unfold grad_bernoulli. apply Forall_forall. intros r Hr.
      apply list_elem_of_lookup in Hr as [k Hk].
      apply lookup_zip_with_Some in Hk as (x & u & -> & _ & _).
      rewrite length_fmap. simpl. f_equal. apply length_fmap.
  - rewrite Hw'. simpl. eexists _, w'.
    split_and!; [done| |by eapply isub_shape]. by rewrite !length_fmap.
Qed.

Lemma well_shaped_insert σ b k layers l (a a' : tensor3) :
  σ !! l = Some a → shape a' = shape a →
  ∀ n, well_shaped σ b k n layers →
       well_shaped (<[l := a']> σ) b k n layers.
Proof.
  intros Ha Hshape.
  assert (∀ l0 x n0 b0 i0,
            σ !! l0 = Some x → has_shape n0 b0 i0 x →
            ∃ x', <[l := a']> σ !! l0 = Some x' ∧ has_shape n0 b0 i0 x')
    as Hlook.
  { intros l0 x n0 b0 i0 Hx Hs. destruct (decide (l = l0)) as [->|Hne].
    - exists a'. rewrite lookup_insert_eq. split; [done|].
      unfold has_shape in *. simplify_eq. congruence.
    - exists x. by rewrite lookup_insert_ne. }
  induction layers as [|[lw lh] layers IH]; intros n Hws; [done|].
  destruct Hws as (n' & w & h & Hn & Hw & Hh & Hsw & Hsh & Hrest).
  destruct (Hlook _ _ _ _ _ Hw Hsw) as (w1 & Hw1 & Hsw1).
  destruct (Hlook _ _ _ _ _ Hh Hsh) as (h1 & Hh1 & Hsh1).
  simpl. exists n', w1, h1. split_and!; try done. by apply IH.
Qed.

Lemma for_layers_total upd layer b k layers :
  (∀ n w h a,
     (0 < n)%nat → has_shape n b (S (length a)) w → has_shape n b k h →
     ∃ y w', layer w h a = Some (y, w') ∧ length y = n ∧
             shape w' = shape w) →
  ∀ σ r_in r0,
    well_shaped σ b k (length r_in) layers →
    ∃ ro σ', for_layers upd layer layers σ r_in r0 = Some (ro, σ') ∧
             (layers ≠ [] → is_Some ro).
Proof.
  intros Hlayer.
  induction layers as [|[lw lh] layers IH]; intros σ r_in r0 Hws.
  - exists r0, σ. done.
  - destruct Hws as (n & w & h & Hn & Hw & Hh & Hsw & Hsh & Hrest).
    destruct (Hlayer n w h r_in Hn Hsw Hsh) as (y & w' & Hy & Hlen & Hshape).
    simpl. rewrite Hw. simpl. rewrite Hh. simpl. rewrite Hy. simpl.
    destruct (IH (if upd then <[lw := w']> σ else σ) y (Some y))
      as (ro & σ' & Hrun & Hro).
    { rewrite Hlen. destruct upd; [|done]. by eapply well_shaped_insert. }
    exists ro, σ'. split; [done|]. intros _.
    destruct layers; [|by apply Hro].
    simpl in Hrun. by simplify_eq.
Qed.

(** On a network whose arrays agree in shape, with at least one layer,
    [step_square_loss] returns. *)
Lemma step_square_loss_total inputs weights hyperplanes bias lr t upd σ b :
  (0 < b)%nat → zip weights hyperplanes ≠ [] →
  well_shaped σ b (S (length inputs)) (length inputs)
    (zip weights hyperplanes) →
  ∃ p loss σ',
    step_square_loss inputs weights hyperplanes bias lr t upd σ
    = Some (p, loss, σ').
Proof.
  intros Hb Hne Hws. unfold step_square_loss, Np.hstack.
  destruct (for_layers_total upd
              (layer_square_loss lr t upd (bias :: inputs))
              b (S (length inputs)) (zip weights hyperplanes))
    with (σ := σ) (r_in := inputs) (r0 := @None vec)
    as (ro & σ' & -> & Hro); [|done|].
  - intros n w h a Hn Hw Hh. by apply (layer_square_loss_total _ _ _ _ _ _ _ n b).
  - destruct (Hro Hne) as [p ->]. simpl. eauto.
Qed.

(** Likewise [step_bernoulli]. *)
Lemma step_bernoulli_total inputs weights hyperplanes bias lr eps t upd σ b :
  (0 < b)%nat → zip weights hyperplanes ≠ [] →
  well_shaped σ b (S (length inputs)) (length inputs)
    (zip weights hyperplanes) →
  ∃ p loss σ',
    step_bernoulli inputs weights hyperplanes bias lr eps t upd σ
    = Some (p, loss, σ').
Proof.
  intros Hb Hne Hws. unfold step_bernoulli, Np.hstack.
  destruct (for_layers_total upd
              (layer_bernoulli lr eps t upd (bias :: inputs))
              b (S (length inputs)) (zip weights hyperplanes))
    with (σ := σ)
         (r_in := (λ x, Np.clip (sigmoid x) eps (1 - eps)) <$> inputs)
         (r0 := @None vec)
    as (ro & σ' & -> & Hro); [|by rewrite length_fmap|].
  - intros n w h a Hn Hw Hh. by apply (layer_bernoulli_total _ _ _ _ _ _ _ _ n b).
  - destruct (Hro Hne) as [p ->]. simpl. eauto.
Qed.

End returns.

Section example_facts.

Lemma example_gate : gate_values [[[1; 0; 0]]] [1; 1; 1] = Some [[true]].
Proof.
  unfold gate_values. simpl. rewrite gate_heaviside.
  repeat f_equal. apply bool_decide_eq_true_2. lra.
Qed.

Lemma example_separate : separate [0%nat] [1%nat].
Proof.
  split.
  - apply NoDup_singleton.
  - intros l Hl Hl'. apply list_elem_of_singleton in Hl, Hl'. congruence.
Qed.

Lemma example_step_square_loss :
  step_square_loss [1; 1] [0%nat] [1%nat] 1 0.1 2 true example_store
  = Some ([0], [2], <[0%nat := [[[0.2; 0.2; 0.2]]]]> example_store).
Proof.
  unfold step_square_loss, Np.hstack, example_store. simpl.
  rewrite lookup_insert_eq. simpl.
  rewrite lookup_insert_ne, lookup_insert_eq by done. simpl.
  rewrite !gate_heaviside, !bool_decide_eq_true_2 by lra. simpl.
  array_eq.
Qed.

Lemma example_step_square_loss_inference :
  step_square_loss [1; 1] [0%nat] [1%nat] 1 0.1 2 false example_store
  = Some ([0], [2], example_store).
Proof.
  unfold step_square_loss, Np.hstack, example_store. simpl.
  rewrite lookup_insert_eq. simpl.
  rewrite lookup_insert_ne, lookup_insert_eq by done. simpl.
  rewrite !gate_heaviside, !bool_decide_eq_true_2 by lra. simpl.
  array_eq.
Qed.

Lemma example_well_shaped :
  well_shaped example_store 1 3 2 (zip [0%nat] [1%nat]).
Proof.
  simpl. exists 1%nat, [[[0; 0; 0]]], [[[1; 0; 0]]]. unfold example_store.
  split_and!; try done. lia.
Qed.

Lemma example_step_bernoulli upd :
  ∃ p loss σ',
    step_bernoulli [1; 1] [0%nat] [1%nat] 1 0.1 0.01 1 upd example_store
    = Some (p, loss, σ').
Proof.
  apply (step_bernoulli_total _ _ _ _ _ _ _ _ _ 1%nat); [lia|done|].
  apply example_well_shaped.
Qed.

End example_facts.

Section driver_facts.

Lemma step_no_update c inputs weights hyperplanes t lr σ p loss σ' :
  step c inputs weights hyperplanes t lr false σ = Some (p, loss, σ') →
  σ' = σ.
Proof.
  destruct c; simpl; intros Hstep.
  - apply step_bernoulli_inv in Hstep as [Hrun _].
    by apply for_layers_no_update in Hrun.
  - apply step_square_loss_inv in Hstep as [Hrun _].
    by apply for_layers_no_update in Hrun.
Qed.

Lemma forward_loop_no_update c xy weights hyperplanes lr : ∀ σ results σ',
  forward_loop (step c) xy weights hyperplanes lr false σ
  = Some (results, σ') →
  σ' = σ.
Proof.
  induction xy as [|[x_i y_i] xy IH]; intros σ results σ' Hloop;
    simpl in Hloop; [by simplify_eq|].
  destruct (step c x_i _ _ _ _ _ σ) as [[[r_out loss] σ1]|] eqn:Hstep;
    [|done].
  simpl in Hloop. apply step_no_update in Hstep as ->.
  destruct r_out as [|output [|]]; try done.
  destruct loss as [|l [|]]; try done.
  destruct (forward_loop _ xy _ _ _ _ σ) as [[rest σ2]|] eqn:Hrest; [|done].
  simpl in Hloop. simplify_eq. by eapply IH.
Qed.

(** An evaluation pass leaves the store as it found it, so that the pass
    run again returns the same mean loss and the same outputs. *)
Lemma forward_pass_repeatable c x y weights hyperplanes lr σ loss outputs σ' :
  forward_pass (step c) x y weights hyperplanes lr false σ
  = Some (loss, outputs, σ') →
  σ' = σ ∧
  forward_pass (step c) x y weights hyperplanes lr false σ'
  = Some (loss, outputs, σ').
Proof.
  intros Hpass. assert (σ' = σ) as ->; [|done].
  unfold forward_pass in Hpass.
  destruct (forward_loop _ _ _ _ _ _ σ) as [[results σ1]|] eqn:Hloop; [|done].
  simpl in Hpass. simplify_eq. by eapply forward_loop_no_update.
Qed.

End driver_facts.

Section init_store_facts.

Lemma alloc_spec arrays : ∀ σ ls σ',
  alloc arrays σ = (ls, σ') →
  NoDup ls ∧ (∀ l, l ∈ ls → σ !! l = None) ∧
  (∀ l, l ∉ ls → σ' !! l = σ !! l) ∧
  Forall2 (λ l a, σ' !! l = Some a) ls arrays.
Proof.
  induction arrays as [|a arrays IH]; intros σ ls σ' Halloc; simpl in Halloc.
  - simplify_eq. split_and!; try done; [constructor|].
    intros l Hl. by apply not_elem_of_nil in Hl.
  - destruct (alloc arrays _) as [ls1 σ1] eqn:Hrest. simplify_eq.
    apply IH in Hrest as (Hnd & Hnew & Hold & Hall).
    pose proof (is_fresh (dom σ)) as Hfresh.
    apply not_elem_of_dom in Hfresh.
    assert (fresh (dom σ) ∉ ls1) as Hnotin.
    { intros Hin. apply Hnew in Hin. by rewrite lookup_insert_eq in Hin. }
    split_and!.
    + by constructor.
    + intros l Hl. apply elem_of_cons in Hl as [->|Hl]; [done|].
      apply Hnew in Hl. apply lookup_insert_None in Hl. tauto.
    + intros l Hl. apply not_elem_of_cons in Hl as [Hne Hl].
      rewrite Hold by done. by rewrite lookup_insert_ne.
    + constructor; [|done]. rewrite Hold by done. apply lookup_insert_eq.
Qed.

(** The initialisation cell builds separate arrays. *)
Lemma init_separate n_features n_branches n_neurons samples
    weights hyperplanes σ :
  init n_features n_branches n_neurons samples = (weights, hyperplanes, σ) →
  separate weights hyperplanes.
Proof.
  unfold init. intros Hinit.
  destruct (alloc (dgn_weights _ _ _) ∅) as [ws σ1] eqn:Hw.
  destruct (alloc (dgn_hyperplanes _) σ1) as [hs σ2] eqn:Hh.
  simplify_eq.
  apply alloc_spec in Hw as (Hnd & _ & _ & Hall).
  apply alloc_spec in Hh as (_ & Hnew & _ & _).
  split; [done|]. intros l Hl Hl'. apply Hnew in Hl'.
  apply list_elem_of_lookup in Hl as [k Hk].
  destruct (Forall2_lookup_l _ _ _ _ _ Hall Hk) as (a & _ & Ha). congruence.
Qed.

End init_store_facts.

Section init_shape_facts.

Lemma dgn_weights_cons n_features n_branches n n_neurons :
  dgn_weights n_features n_branches (n :: n_neurons)
  = replicate n (replicate n_branches (replicate (n_features + 1) 0))
      :: dgn_weights n n_branches n_neurons.
Proof.
  unfold dgn_weights, n_inputs. simpl. f_equal.
  rewrite Nat.sub_0_r. destruct n_neurons as [|n' n_neurons]; [done|].
  simpl. by rewrite Nat.sub_0_r.
Qed.

Lemma zeros_has_shape n b i :
  has_shape n b i (replicate n (replicate b (replicate i 0))).
Proof.
  unfold has_shape, shape.
  by rewrite !fmap_replicate, length_replicate.
Qed.

Lemma normalise_shape h_ : shape (normalise h_) = shape h_.
Proof.
  unfold shape, normalise. rewrite <- list_fmap_compose.
  apply list_fmap_ext. intros _ m _. simpl.
  rewrite <- list_fmap_compose. apply list_fmap_ext. intros _ v _. simpl.
  apply length_fmap.
Qed.

Lemma well_shaped_arrays σ b k n_neurons : ∀ n_features ws hs harrs,
  Forall (λ n, (0 < n)%nat) n_neurons →
  Forall2 (λ lw w, σ !! lw = Some w) ws
    (dgn_weights n_features b n_neurons) →
  Forall2 (λ lh h, σ !! lh = Some h) hs harrs →
  Forall2 (λ n h, has_shape n b k h) n_neurons harrs →
  well_shaped σ b k n_features (zip ws hs).
Proof.
  induction n_neurons as [|n n_neurons IH];
    intros n_features ws hs harrs Hpos Hws Hhs Hshape.
  - apply Forall2_nil_inv_l in Hshape as ->.
    apply Forall2_nil_inv_r in Hhs as ->. by destruct ws.
  - rewrite dgn_weights_cons in Hws.
    apply Forall2_cons_inv_l in Hshape as (h & harrs' & Hh & Hshape & ->).
    apply Forall2_cons_inv_r in Hhs as (lh & hs' & Hlh & Hhs & ->).
    apply Forall2_cons_inv_r in Hws as (lw & ws' & Hlw & Hws & ->).
    apply Forall_cons in Hpos as [Hn Hpos].
    simpl. eexists n, _, h. split_and!; [done|exact Hlw|done| |done|].
    + rewrite Nat.add_1_r. apply zeros_has_shape.
    + by eapply IH.
Qed.

(** The arrays the initialisation cell builds agree in shape, when the
    drawn arrays have the shapes [np.random.normal] is asked for. *)
Lemma init_well_shaped n_features n_branches n_neurons samples
    weights hyperplanes σ :
  Forall (λ n, (0 < n)%nat) n_neurons →
  Forall2 (λ n h_, has_shape n n_branches (n_features + 1) h_)
    n_neurons samples →
  init n_features n_branches n_neurons samples = (weights, hyperplanes, σ) →
  well_shaped σ n_branches (n_features + 1) n_features
    (zip weights hyperplanes).
Proof.
  intros Hpos Hsamples Hinit.
  pose proof (init_separate _ _ _ _ _ _ _ Hinit) as [_ Hdisj].
  unfold init in Hinit.
  destruct (alloc (dgn_weights _ _ _) ∅) as [ws σ1] eqn:Hw.
  destruct (alloc (dgn_hyperplanes _) σ1) as [hs σ2] eqn:Hh.
  simplify_eq.
  apply alloc_spec in Hw as (_ & _ & _ & Hws).
  apply alloc_spec in Hh as (_ & _ & Hold & Hhs).
  eapply well_shaped_arrays; [done| |exact Hhs|].
  - apply Forall2_same_length_lookup. split; [by eapply Forall2_length|].
    intros k lw w Hlw Hwk. rewrite Hold.
    + destruct (Forall2_lookup_l _ _ _ _ _ Hws Hlw) as (w' & Hw' & ?).
      congruence.
    + apply Hdisj. by eapply list_elem_of_lookup_2.
  - unfold dgn_hyperplanes. apply Forall2_fmap_r.
    eapply Forall2_impl; [exact Hsamples|]. simpl. intros n h_.
    unfold has_shape. by rewrite normalise_shape.
Qed.

(** On the network the notebook initialises, a step of either regime
    returns. *)
Lemma init_step_returns n_features n_branches n_neurons samples
    weights hyperplanes σ c inputs t lr upd :
  (0 < n_branches)%nat → n_neurons ≠ [] →
  Forall (λ n, (0 < n)%nat) n_neurons →
  Forall2 (λ n h_, has_shape n n_branches (n_features + 1) h_)
    n_neurons samples →
  length inputs = n_features →
  init n_features n_branches n_neurons samples = (weights, hyperplanes, σ) →
  ∃ p loss σ',
    step c inputs weights hyperplanes t lr upd σ = Some (p, loss, σ').
Proof.
  intros Hb Hne Hpos Hsamples Hlen Hinit.
  pose proof (init_well_shaped _ _ _ _ _ _ _ Hpos Hsamples Hinit) as Hws.
  assert (zip weights hyperplanes ≠ []) as Hzip.
  { unfold init in Hinit.
    destruct (alloc (dgn_weights _ _ _) ∅) as [ws σ1] eqn:Hw.
    destruct (alloc (dgn_hyperplanes _) σ1) as [hs σ2] eqn:Hh.
    simplify_eq.
    apply alloc_spec in Hw as (_ & _ & _ & Hwl).
    apply alloc_spec in Hh as (_ & _ & _ & Hhl).
    apply Forall2_length in Hwl, Hhl, Hsamples.
    unfold dgn_hyperplanes in Hhl. rewrite length_fmap in Hhl.
    destruct n_neurons as [|n ns]; [done|].
    rewrite dgn_weights_cons in Hwl.
    destruct weights, hyperplanes; simpl in *; try done; lia. }
  subst n_features. rewrite Nat.add_1_r in Hws.
  destruct c; simpl.
  - by eapply step_bernoulli_total.
  - by eapply step_square_loss_total.
Qed.

End init_shape_facts.

Section scenario_facts.

Lemma example_norm : norm (init_slice [[3; 3]; [4; 4]]) = 5.
Proof.
  unfold norm, sum_squares2, init_slice. simpl.
  replace (3 * 3 + 0 + (4 * 4 + 0 + 0)) with (5 * 5) by lra.
  apply sqrt_square. lra.
Qed.

(** The first updating step of a network of one neuron with one open
    branch and weights all zero, on any two input features: the prediction
    is 0, and the new weights are [learning_rate * target] times the
    incoming activation [1, x1, x2] - the weight of the bias unit comes
    first. *)
Lemma square_loss_first_step bias lr t x1 x2 (h : vec) lw lh (σ : store) :
  σ !! lw = Some [[[0; 0; 0]]] →
  σ !! lh = Some [[h]] →
  gate_values [[h]] (bias :: [x1; x2]) = Some [[true]] →
  step_square_loss [x1; x2] [lw] [lh] bias lr t true σ
  = Some ([0], [t ^ 2 / 2],
          <[lw := [[[lr * t; lr * t * x1; lr * t * x2]]]]> σ).
Proof.
  intros Hw Hh Hgate. unfold step_square_loss, Np.hstack. simpl.
  rewrite Hw. simpl. rewrite Hh. simpl.
  unfold layer_square_loss, Np.hstack. rewrite Hgate. simpl.
  array_eq.
Qed.

Lemma vsum_singleton n (v : vec) :
  length v = n → Np.vsum n [v] = v.
Proof.
  intros <-. unfold Np.vsum. simpl.
  induction v as [|x v IH]; simpl; [done|].
  f_equal; [lra|done].
Qed.

(** In a layer of a single neuron the sum over the neurons has one term:
    there [effective_weights] is the sum over the neuron's own open
    branches. *)
Lemma effective_weights_single_neuron (g : list bool) (m : matrix) i :
  (0 < length m)%nat → length g = length m →
  Forall (λ v, length v = i) m →
  effective_weights [g] [m] = spec_effective_weights [g] [m].
Proof.
  intros Hpos Hlen Hm.
  destruct (vecmat_total (Np.of_bool <$> g) m i) as (v & Hv & Hvi);
    [done|by rewrite length_fmap|done|].
  assert (Np.ncols m = i) as Hcols.
  { destruct Hm as [|r m' Hr _]; simpl in *; [lia|done]. }
  unfold effective_weights, spec_effective_weights, Np.dot23. simpl.
  rewrite Hv. unfold Np.sum_axis1. csimpl.
  rewrite Hcols. repeat f_equal. by apply vsum_singleton.
Qed.

End scenario_facts.

(** * Part IV: lemmas on the rest of the notebook *)

Section sigmoid_facts.

Lemma sigmoid_eq x : sigmoid x = / (1 + exp (- x)).
Proof.
  unfold sigmoid, Np.logaddexp. rewrite exp_0, exp_Ropp, exp_ln; [done|].
  pose proof (exp_pos (- x)). lra.
Qed.

Lemma sigmoid_range x : 0 < sigmoid x < 1.
Proof.
  rewrite sigmoid_eq. pose proof (exp_pos (- x)) as He. split.
  - apply Rinv_0_lt_compat. lra.
  - rewrite <- Rinv_1 at 2. apply Rinv_lt_contravar; lra.
Qed.

Lemma inverse_sigmoid_sigmoid x : inverse_sigmoid (sigmoid x) = x.
Proof.
  unfold inverse_sigmoid. rewrite sigmoid_eq.
  pose proof (exp_pos (- x)) as He.
  replace (/ (1 + exp (- x)) / (1 - / (1 + exp (- x)))) with (exp x).
  - apply ln_exp.
  - rewrite exp_Ropp in *. pose proof (exp_pos x). field. split; lra.
Qed.

Lemma sigmoid_inverse_sigmoid p : 0 < p < 1 → sigmoid (inverse_sigmoid p) = p.
Proof.
  intros Hp. rewrite sigmoid_eq. unfold inverse_sigmoid.
  rewrite exp_Ropp, exp_ln.
  - field. lra.
  - apply Rdiv_lt_0_compat; lra.
Qed.

Lemma sigmoid_increasing x y : x < y → sigmoid x < sigmoid y.
Proof.
  intros Hxy. rewrite !sigmoid_eq.
  pose proof (exp_pos (- x)). pose proof (exp_pos (- y)).
  assert (exp (- y) < exp (- x)) by (apply exp_increasing; lra).
  apply Rinv_lt_contravar; [|lra].
  apply Rmult_lt_0_compat; lra.
Qed.

End sigmoid_facts.

Section regime_facts.

Lemma clip_id x lo hi : lo <= x <= hi → Np.clip x lo hi = x.
Proof.
  intros [Hlo Hhi]. unfold Np.clip.
  rewrite (Rmax_left x lo) by done. by apply Rmin_right.
Qed.

(** The log-odds of activations that were not clipped are the numbers the
    sigmoid was applied to, and the log-odds of the bias unit is 1. *)
Lemma log_odds_unclipped eps (a : vec) :
  Forall (λ v, eps <= sigmoid v <= 1 - eps) a →
  inverse_sigmoid <$>
    Np.hstack (sigmoid 1) ((λ v, Np.clip (sigmoid v) eps (1 - eps)) <$> a)
  = 1 :: a.
Proof.
  intros Ha. unfold Np.hstack. csimpl. rewrite inverse_sigmoid_sigmoid.
  f_equal. induction Ha as [|v a Hv _ IH]; csimpl; [done|].
  rewrite clip_id by done. rewrite inverse_sigmoid_sigmoid. by f_equal.
Qed.

Lemma layer_bernoulli_of_square_loss lr lr' eps t t' s w h
    (r_in r_out : vec) w' :
  Forall (λ v, eps <= sigmoid v <= 1 - eps) r_in →
  layer_square_loss lr t false s w h r_in = Some (r_out, w') →
  layer_bernoulli lr' eps t' false s w h
    ((λ v, Np.clip (sigmoid v) eps (1 - eps)) <$> r_in)
  = Some ((λ v, Np.clip (sigmoid v) eps (1 - eps)) <$> r_out, w').
Proof.
  intros Hin Hsq.
  apply layer_square_loss_inv in Hsq as (g & e & Hg & He & Hdot & _ & ->).
  unfold layer_bernoulli. rewrite log_odds_unclipped by done.
  rewrite Hg. simpl. rewrite He. simpl. rewrite Hdot. simpl.
  by rewrite <- list_fmap_compose.
Qed.

Lemma ln_monotone x y : 0 < x → x <= y → ln x <= ln y.
Proof.
  intros Hx [Hlt| ->]; [|lra]. left. by apply ln_increasing.
Qed.

Lemma bernoulli_loss_entry eps t y :
  0 < eps → 0 <= t <= 1 → eps <= y <= 1 - eps →
  0 <= - (t * ln y + (1 - t) * ln (1 - y)) <= - ln eps.
Proof.
  intros Heps Ht Hy.
  assert (ln eps <= ln y <= 0) as Hl1.
  { split; [apply ln_monotone; lra|]. rewrite <- ln_1. apply ln_monotone; lra. }
  assert (ln eps <= ln (1 - y) <= 0) as Hl2.
  { split; [apply ln_monotone; lra|]. rewrite <- ln_1. apply ln_monotone; lra. }
  split; nra.
Qed.

Lemma step_bernoulli_range inputs weights hyperplanes bias lr eps t upd σ
    p loss σ' :
  eps <= 1 - eps →
  step_bernoulli inputs weights hyperplanes bias lr eps t upd σ
  = Some (p, loss, σ') →
  Forall (λ y, eps <= y <= 1 - eps) p.
Proof.
  intros Heps Hstep. apply step_bernoulli_inv in Hstep as [Hrun _].
  eapply (for_layers_output (λ p, Forall (λ y, eps <= y <= 1 - eps) p));
    [|exact Hrun|done].
  intros w h a y w' H.
  apply layer_bernoulli_inv in H as (g & e & h_out & _ & _ & _ & _ & -> & _).
  apply Forall_fmap, Forall_true. intros x. simpl. by apply clip_bounds.
Qed.

End regime_facts.

Section shape_invariant.

(** A pass leaves every array of the store with the shape it had, whether
    or not arrays are shared between the lists. *)
Lemma for_layers_shapes upd layer layers :
  (∀ w h a y w', layer w h a = Some (y, w') → shape w' = shape w) →
  ∀ σ r_in r0 ro σ',
    for_layers upd layer layers σ r_in r0 = Some (ro, σ') →
    ∀ l, shape <$> σ' !! l = shape <$> σ !! l.
Proof.
  intros Hlayer.
  induction layers as [|[lw lh] layers IH]; intros σ r_in r0 ro σ' Hrun l;
    simpl in Hrun.
  - by simplify_eq.
  - destruct (σ !! lw) as [w|] eqn:Hw; [|done]. simpl in Hrun.
    destruct (σ !! lh) as [h|] eqn:Hh; [|done]. simpl in Hrun.
    destruct (layer w h r_in) as [[y w1]|] eqn:Hy; [|done]. simpl in Hrun.
    rewrite (IH _ _ _ _ _ Hrun l). destruct upd; [|done].
    destruct (decide (lw = l)) as [->|Hne].
    + rewrite lookup_insert_eq, Hw. simpl. f_equal. by eapply Hlayer.
    + by rewrite lookup_insert_ne.
Qed.

Lemma layer_square_loss_shape lr t upd s w h a y w' :
  layer_square_loss lr t upd s w h a = Some (y, w') → shape w' = shape w.
Proof.
  intros H. by apply layer_square_loss_frame in H as (g & _ & ? & _).
Qed.

Lemma layer_bernoulli_shape lr eps t upd s w h a y w' :
  layer_bernoulli lr eps t upd s w h a = Some (y, w') → shape w' = shape w.
Proof.
  intros H. by apply layer_bernoulli_frame in H as (g & _ & ? & _).
Qed.

Lemma step_shapes c inputs weights hyperplanes t lr upd σ p loss σ' :
  step c inputs weights hyperplanes t lr upd σ = Some (p, loss, σ') →
  ∀ l, shape <$> σ' !! l = shape <$> σ !! l.
Proof.
  destruct c; simpl; intros Hstep.
  - apply step_bernoulli_inv in Hstep as [Hrun _].
    eapply for_layers_shapes; [|exact Hrun]. apply layer_bernoulli_shape.
  - apply step_square_loss_inv in Hstep as [Hrun _].
    eapply for_layers_shapes; [|exact Hrun]. apply layer_square_loss_shape.
Qed.

Lemma well_shaped_shapes σ σ' b k layers :
  (∀ l, shape <$> σ' !! l = shape <$> σ !! l) →
  ∀ n, well_shaped σ b k n layers → well_shaped σ' b k n layers.
Proof.
  intros Hshape.
  assert (∀ l x n0 b0 i0,
            σ !! l = Some x → has_shape n0 b0 i0 x →
            ∃ x', σ' !! l = Some x' ∧ has_shape n0 b0 i0 x') as Hlook.
  { intros l x n0 b0 i0 Hx Hs. specialize (Hshape l). rewrite Hx in Hshape.
    destruct (σ' !! l) as [x'|]; [|done]. exists x'. split; [done|].
    unfold has_shape in *. simpl in Hshape. congruence. }
  induction layers as [|[lw lh] layers IH]; intros n Hws; [done|].
  destruct Hws as (n' & w & h & Hn & Hw & Hh & Hsw & Hsh & Hrest).
  destruct (Hlook _ _ _ _ _ Hw Hsw) as (w1 & Hw1 & Hsw1).
  destruct (Hlook _ _ _ _ _ Hh Hsh) as (h1 & Hh1 & Hsh1).
  simpl. exists n', w1, h1. split_and!; try done. by apply IH.
Qed.

End shape_invariant.

Section raise_facts.

Lemma item2_shape (h : tensor3) i j n :
  item2 (shape h) i j = Some n ↔ ∃ v, item2 h i j = Some v ∧ length v = n.
Proof.
  unfold item2, shape. rewrite list_lookup_fmap.
  destruct (h !! i) as [m|]; simpl.
  - rewrite list_lookup_fmap. destruct (m !! j) as [v|]; simpl.
    + split; [intros [= <-]; by exists v|]. by intros (v' & [= <-] & <-).
    + split; [done|]. by intros (v' & ? & _).
  - split; [done|]. by intros (v' & ? & _).
Qed.

Lemma gate_values_bad_width h s i j n :
  item2 (shape h) i j = Some n → n ≠ length s → gate_values h s = None.
Proof.
  intros Hn Hne. apply item2_shape in Hn as (v & Hv & <-).
  unfold gate_values. destruct (Np.dot31 h s) as [c|] eqn:Hc; [|done].
  destruct (dot31_item _ _ _ _ _ _ Hc Hv) as (d & Hd & _).
  unfold Np.dot in Hd. by rewrite decide_False in Hd.
Qed.

Lemma for_layers_bad_hyperplane upd layer (s : vec) layers :
  (∀ w h a i j n,
     item2 (shape h) i j = Some n → n ≠ length s → layer w h a = None) →
  (∀ w h a y w', layer w h a = Some (y, w') → shape w' = shape w) →
  ∀ k σ r_in r0 lw lh h i j n,
    layers !! k = Some (lw, lh) → σ !! lh = Some h →
    item2 (shape h) i j = Some n → n ≠ length s →
    for_layers upd layer layers σ r_in r0 = None.
Proof.
  intros Hbad Hshape.
  induction layers as [|[lw0 lh0] layers IH];
    intros k σ r_in r0 lw lh h i j n Hk Hh Hn Hne; [done|].
  simpl. destruct (σ !! lw0) as [w0|] eqn:Hw0; [|done]. simpl.
  destruct (σ !! lh0) as [h0|] eqn:Hh0; [|done]. simpl.
  destruct k as [|k]; simpl in Hk.
  - simplify_eq. by erewrite Hbad.
  - destruct (layer w0 h0 r_in) as [[y w1]|] eqn:Hy; [|done]. simpl.
    destruct upd; [|by eapply IH].
    destruct (decide (lw0 = lh)) as [->|Hneq].
    + eapply (IH k _ _ _ lw lh w1); [done|by rewrite lookup_insert_eq| |done].
      rewrite (Hshape _ _ _ _ _ Hy). by simplify_eq.
    + eapply (IH k _ _ _ lw lh h); [done| |done..].
      by rewrite lookup_insert_ne.
Qed.

End raise_facts.

Section pass_returns.

Lemma shape_length (a : tensor3) : length (shape a) = length a.
Proof. unfold shape. apply length_fmap. Qed.

Lemma for_layers_total_last upd layer b k layers :
  (∀ n w h a,
     (0 < n)%nat → has_shape n b (S (length a)) w → has_shape n b k h →
     ∃ y w', layer w h a = Some (y, w') ∧ length y = n ∧
             shape w' = shape w) →
  ∀ σ r_in r0 lw lh w,
    well_shaped σ b k (length r_in) layers →
    last layers = Some (lw, lh) → σ !! lw = Some w →
    ∃ p σ', for_layers upd layer layers σ r_in r0 = Some (Some p, σ') ∧
            length p = length w.
Proof.
  intros Hlayer.
  induction layers as [|[lw0 lh0] layers IH];
    intros σ r_in r0 lw lh w Hws Hlast Hw; [done|].
  destruct Hws as (n & w0 & h0 & Hn & Hw0 & Hh0 & Hsw & Hsh & Hrest).
  destruct (Hlayer n w0 h0 r_in Hn Hsw Hsh) as (y & w' & Hy & Hlen & Hshape).
  simpl. rewrite Hw0. simpl. rewrite Hh0. simpl. rewrite Hy. simpl.
  destruct layers as [|l1 layers].
  - simpl in Hlast. simplify_eq. simpl.
    exists y, (if upd then <[lw := w']> σ else σ).
    split; [done|]. by apply has_shape_length in Hsw.
  - rewrite last_cons_cons in Hlast.
    assert (∃ w1, (if upd then <[lw0 := w']> σ else σ) !! lw = Some w1 ∧
                  length w1 = length w) as (w1 & Hw1 & Hlen1).
    { destruct upd; [|by exists w].
      destruct (decide (lw0 = lw)) as [->|Hne].
      - exists w'. rewrite lookup_insert_eq. split; [done|].
        rewrite <- !shape_length, Hshape. by simplify_eq.
      - exists w. by rewrite lookup_insert_ne. }
    destruct (IH (if upd then <[lw0 := w']> σ else σ) y (Some y) lw lh w1)
      as (p & σ' & Hrun & Hp); [|done|done|].
    { rewrite Hlen. destruct upd; [|done]. by eapply well_shaped_insert. }
    exists p, σ'. split; [done|congruence].
Qed.

Lemma step_square_loss_total_last inputs weights hyperplanes bias lr t upd σ
    b lw lh w :
  (0 < b)%nat →
  well_shaped σ b (S (length inputs)) (length inputs)
    (zip weights hyperplanes) →
  last (zip weights hyperplanes) = Some (lw, lh) → σ !! lw = Some w →
  ∃ p loss σ',
    step_square_loss inputs weights hyperplanes bias lr t upd σ
    = Some (p, loss, σ') ∧
    length p = length w ∧ length loss = length w.
Proof.
  intros Hb Hws Hlast Hw. unfold step_square_loss, Np.hstack.
  destruct (for_layers_total_last upd
              (layer_square_loss lr t upd (bias :: inputs))
              b (S (length inputs)) (zip weights hyperplanes))
    with (σ := σ) (r_in := inputs) (r0 := @None vec)
         (lw := lw) (lh := lh) (w := w)
    as (p & σ' & -> & Hp); [|done..|].
  - intros n w0 h a Hn Hsw Hsh.
    by apply (layer_square_loss_total _ _ _ _ _ _ _ n b).
  - simpl. eexists _, _, _. split; [done|]. by rewrite length_fmap.
Qed.

Lemma step_bernoulli_total_last inputs weights hyperplanes bias lr eps t upd σ
    b lw lh w :
  (0 < b)%nat →
  well_shaped σ b (S (length inputs)) (length inputs)
    (zip weights hyperplanes) →
  last (zip weights hyperplanes) = Some (lw, lh) → σ !! lw = Some w →
  ∃ p loss σ',
    step_bernoulli inputs weights hyperplanes bias lr eps t upd σ
    = Some (p, loss, σ') ∧
    length p = length w ∧ length loss = length w.
Proof.
  intros Hb Hws Hlast Hw. unfold step_bernoulli, Np.hstack.
  destruct (for_layers_total_last upd
              (layer_bernoulli lr eps t upd (bias :: inputs))
              b (S (length inputs)) (zip weights hyperplanes))
    with (σ := σ)
         (r_in := (λ x, Np.clip (sigmoid x) eps (1 - eps)) <$> inputs)
         (r0 := @None vec) (lw := lw) (lh := lh) (w := w)
    as (p & σ' & -> & Hp); [|by rewrite length_fmap|done..|].
  - intros n w0 h a Hn Hsw Hsh.
    by apply (layer_bernoulli_total _ _ _ _ _ _ _ _ n b).
  - simpl. eexists _, _, _. split; [done|]. by rewrite length_fmap.
Qed.

Lemma step_total_last c inputs weights hyperplanes t lr upd σ b lw lh w :
  (0 < b)%nat →
  well_shaped σ b (S (length inputs)) (length inputs)
    (zip weights hyperplanes) →
  last (zip weights hyperplanes) = Some (lw, lh) → σ !! lw = Some w →
  ∃ p loss σ',
    step c inputs weights hyperplanes t lr upd σ = Some (p, loss, σ') ∧
    length p = length w ∧ length loss = length w.
Proof.
  intros Hb Hws Hlast Hw. destruct c; simpl.
  - by eapply step_bernoulli_total_last.
  - by eapply step_square_loss_total_last.
Qed.

Lemma single_output_shapes σ σ' layers :
  (∀ l, shape <$> σ' !! l = shape <$> σ !! l) →
  single_output σ layers → single_output σ' layers.
Proof.
  intros Hshape (lw & lh & w & Hlast & Hw & Hlen).
  specialize (Hshape lw). rewrite Hw in Hshape.
  destruct (σ' !! lw) as [w'|] eqn:Hw'; [|done].
  exists lw, lh, w'. split_and!; [done..|].
  simpl in Hshape. rewrite <- shape_length. injection Hshape as ->.
  by rewrite shape_length.
Qed.

Lemma forward_loop_total c weights hyperplanes lr upd b n_features xy :
  (0 < b)%nat →
  Forall (λ p : vec * R, length p.1 = n_features) xy →
  ∀ σ,
    well_shaped σ b (S n_features) n_features (zip weights hyperplanes) →
    single_output σ (zip weights hyperplanes) →
    ∃ results σ',
      forward_loop (step c) xy weights hyperplanes lr upd σ
      = Some (results, σ') ∧
      length results = length xy.
Proof.
  intros Hb Hxy. induction Hxy as [|[x_i y_i] xy Hx _ IH]; intros σ Hws Hone.
  - by exists [], σ.
  - simpl in Hx. subst n_features.
    destruct Hone as (lw & lh & w & Hlast & Hw & Hlen).
    destruct (step_total_last c x_i weights hyperplanes y_i lr upd σ b
                lw lh w Hb Hws Hlast Hw)
      as (p & loss & σ1 & Hstep & Hp & Hl).
    simpl. rewrite Hstep. simpl.
    destruct p as [|output [|]]; simpl in Hp; try lia.
    destruct loss as [|l [|]]; simpl in Hl; try lia.
    pose proof (step_shapes _ _ _ _ _ _ _ _ _ _ _ Hstep) as Hshape.
    destruct (IH σ1) as (results & σ' & -> & Hres).
    + by eapply well_shaped_shapes.
    + eapply single_output_shapes; [done|]. by exists lw, lh, w.
    + simpl. eexists _, _. split; [done|]. simpl. by rewrite Hres.
Qed.

Lemma forward_pass_length step_fn x y weights hyperplanes lr upd σ
    loss outputs σ' :
  forward_pass step_fn x y weights hyperplanes lr upd σ
  = Some (loss, outputs, σ') →
  length outputs = length y.
Proof.
  unfold forward_pass. intros Hpass.
  destruct (forward_loop _ _ _ _ _ _ _) as [[results σ1]|] eqn:Hloop; [|done].
  simpl in Hpass. simplify_eq.
  rewrite length_app, length_fmap, length_replicate.
  assert (length results ≤ length y); [|lia].
  clear -Hloop. revert y σ results Hloop.
  induction x as [|x_i x IH]; intros [|y_i y] σ results Hloop;
    simpl in Hloop; simplify_eq; simpl; try lia.
  destruct (step_fn _ _ _ _ _ _ _) as [[[r l] σ2]|]; [|done]. simpl in Hloop.
  destruct r as [|o [|]]; try done. destruct l as [|l0 [|]]; try done.
  destruct (forward_loop _ _ _ _ _ _ _) as [[rest σ3]|] eqn:Hrest; [|done].
  simpl in Hloop. simplify_eq. simpl. apply IH in Hrest. lia.
Qed.

Lemma forward_loop_length step_fn xy weights hyperplanes lr upd :
  ∀ σ results σ',
    forward_loop step_fn xy weights hyperplanes lr upd σ
    = Some (results, σ') →
    length results = length xy.
Proof.
  induction xy as [|[x_i y_i] xy IH]; intros σ results σ' Hloop;
    simpl in Hloop; [by simplify_eq|].
  destruct (step_fn _ _ _ _ _ _ _) as [[[r l] σ2]|]; [|done]. simpl in Hloop.
  destruct r as [|o [|]]; try done. destruct l as [|l0 [|]]; try done.
  destruct (forward_loop _ _ _ _ _ _ _) as [[rest σ3]|] eqn:Hrest; [|done].
  simpl in Hloop. simplify_eq. simpl. f_equal. by eapply IH.
Qed.

End pass_returns.

Section round_facts.

Lemma round_unit_interval p :
  0 < p < 1 → round p = if decide (1 / 2 < p) then 1 else 0.
Proof.
  intros Hp. unfold round. cbv zeta.
  destruct (Int_part_frac_part_spec p 0 p) as [Hn Hf]; [lra|lra|].
  rewrite <- Hn, <- Hf. repeat case_decide; simpl; try done; lra.
Qed.

Lemma sum_of_bool_bounds (l : list bool) :
  0 <= Np.sum (Np.of_bool <$> l) <= INR (length l).
Proof.
  unfold Np.sum. induction l as [|b l IH]; [simpl; lra|].
  rewrite length_cons, S_INR. csimpl. destruct b; simpl; lra.
Qed.

Lemma accuracy_bounds pred y a :
  y ≠ [] → accuracy pred y = Some a → 0 <= a <= 1.
Proof.
  intros Hy. unfold accuracy. case_decide as Hlen; [|done]. intros [= <-].
  pose proof (sum_of_bool_bounds
                (zip_with (λ p t, bool_decide (round p = t)) pred y)) as Hb.
  rewrite length_zip_with, Hlen, Nat.min_id in Hb.
  assert (Np.of_bool <$> zip_with (λ p t, bool_decide (round p = t)) pred y
          = zip_with (λ p t, Np.of_bool (bool_decide (round p = t))) pred y)
    as Heq.
  { clear. revert y. induction pred as [|p pred IH]; intros [|t y]; csimpl;
      try done. by f_equal. }
  rewrite Heq in Hb.
  assert (0 < INR (length y)) as Hpos.
  { apply lt_0_INR. destruct y; simpl; [done|lia]. }
  split.
  - apply Rmult_le_pos; [lra|]. left. by apply Rinv_0_lt_compat.
  - apply (Rmult_le_reg_r (INR (length y))); [done|].
    unfold Rdiv. rewrite Rmult_assoc, Rinv_l by lra. lra.
Qed.

End round_facts.

Section train_facts.

Lemma forward_loop_shapes c xy weights hyperplanes lr upd : ∀ σ results σ',
  forward_loop (step c) xy weights hyperplanes lr upd σ
  = Some (results, σ') →
  ∀ l, shape <$> σ' !! l = shape <$> σ !! l.
Proof.
  induction xy as [|[x_i y_i] xy IH]; intros σ results σ' Hloop l;
    simpl in Hloop; [by simplify_eq|].
  destruct (step c x_i _ _ _ _ _ σ) as [[[r_out loss] σ1]|] eqn:Hstep;
    [|done].
  simpl in Hloop.
  destruct r_out as [|output [|]]; try done.
  destruct loss as [|l0 [|]]; try done.
  destruct (forward_loop _ xy _ _ _ _ σ1) as [[rest σ2]|] eqn:Hrest; [|done].
  simpl in Hloop. simplify_eq.
  rewrite (IH _ _ _ Hrest l). by eapply step_shapes.
Qed.

Lemma forward_pass_shapes c x y weights hyperplanes lr upd σ loss outputs σ' :
  forward_pass (step c) x y weights hyperplanes lr upd σ
  = Some (loss, outputs, σ') →
  ∀ l, shape <$> σ' !! l = shape <$> σ !! l.
Proof.
  unfold forward_pass. intros Hpass.
  destruct (forward_loop _ _ _ _ _ _ σ) as [[results σ1]|] eqn:Hloop; [|done].
  simpl in Hpass. simplify_eq. by eapply forward_loop_shapes.
Qed.

Lemma forward_pass_total c x y weights hyperplanes lr upd σ b n_features :
  (0 < b)%nat →
  Forall (λ x_i : vec, length x_i = n_features) x →
  well_shaped σ b (S n_features) n_features (zip weights hyperplanes) →
  single_output σ (zip weights hyperplanes) →
  ∃ loss outputs σ',
    forward_pass (step c) x y weights hyperplanes lr upd σ
    = Some (loss, outputs, σ').
Proof.
  intros Hb Hx Hws Hone. unfold forward_pass.
  destruct (forward_loop_total c weights hyperplanes lr upd b n_features
              (zip x y) Hb) with (σ := σ) as (results & σ' & -> & _);
    [|done..|simpl; eauto].
  apply Forall_forall. intros [x_i y_i] Hin. apply elem_of_zip_l in Hin.
  rewrite Forall_forall in Hx. by apply Hx.
Qed.

Lemma train_epochs_epochs c epochs x_train y_train x_test y_test ws hs lr :
  ∀ σ reports σ',
    train_epochs c epochs x_train y_train x_test y_test ws hs lr σ
    = Some (reports, σ') →
    epoch <$> reports = epochs.
Proof.
  induction epochs as [|e epochs IH]; intros σ reports σ' Htrain;
    simpl in Htrain; [by simplify_eq|].
  destruct (forward_pass _ x_train _ _ _ _ _ σ) as [[[l1 p1] σ1]|]; [|done].
  simpl in Htrain.
  destruct (forward_pass _ x_test _ _ _ _ _ σ1) as [[[l2 p2] σ2]|]; [|done].
  simpl in Htrain.
  assert (∃ acc rest σ3,
            train_epochs c epochs x_train y_train x_test y_test ws hs lr σ2
            = Some (rest, σ3) ∧
            reports = Report e l2 l1 acc :: rest) as (acc & rest & σ3 & Hrest & ->).
  { destruct c; simpl in Htrain.
    - destruct (accuracy p1 y_train) as [a1|]; [|done]. simpl in Htrain.
      destruct (accuracy p2 y_test) as [a2|]; [|done]. simpl in Htrain.
      destruct (train_epochs _ _ _ _ _ _ _ _ _ σ2) as [[rest σ3]|]; [|done].
      simpl in Htrain. simplify_eq. eauto.
    - destruct (train_epochs _ _ _ _ _ _ _ _ _ σ2) as [[rest σ3]|]; [|done].
      simpl in Htrain. simplify_eq. eauto. }
  simpl. f_equal. by eapply IH.
Qed.

Lemma train_epochs_total c epochs x_train y_train x_test y_test ws hs lr b
    n_features :
  (0 < b)%nat →
  Forall (λ x_i : vec, length x_i = n_features) x_train →
  Forall (λ x_i : vec, length x_i = n_features) x_test →
  ∀ σ,
    well_shaped σ b (S n_features) n_features (zip ws hs) →
    single_output σ (zip ws hs) →
    ∃ reports σ',
      train_epochs c epochs x_train y_train x_test y_test ws hs lr σ
      = Some (reports, σ').
Proof.
  intros Hb Hxtr Hxte.
  induction epochs as [|e epochs IH]; intros σ Hws Hone; [by exists [], σ|].
  simpl.
  destruct (forward_pass_total c x_train y_train ws hs lr
              (bool_decide (0 < e)%nat) σ b n_features Hb Hxtr Hws Hone)
    as (l1 & p1 & σ1 & Hp1).
  rewrite Hp1. simpl.
  pose proof (forward_pass_shapes _ _ _ _ _ _ _ _ _ _ _ Hp1) as Hs1.
  assert (well_shaped σ1 b (S n_features) n_features (zip ws hs)) as Hws1
    by by eapply well_shaped_shapes.
  assert (single_output σ1 (zip ws hs)) as Hone1
    by by eapply single_output_shapes.
  destruct (forward_pass_total c x_test y_test ws hs lr false σ1 b
              n_features Hb Hxte Hws1 Hone1) as (l2 & p2 & σ2 & Hp2).
  rewrite Hp2. simpl.
  pose proof (forward_pass_shapes _ _ _ _ _ _ _ _ _ _ _ Hp2) as Hs2.
  destruct (IH σ2) as (rest & σ3 & Hrest).
  { by eapply well_shaped_shapes. }
  { by eapply single_output_shapes. }
  apply forward_pass_length in Hp1, Hp2.
  destruct c; simpl.
  - unfold accuracy. rewrite !decide_True by done. simpl.
    rewrite Hrest. simpl. eauto.
  - rewrite Hrest. simpl. eauto.
Qed.

Lemma forward_pass_no_update c x y weights hyperplanes lr σ loss outputs σ' :
  forward_pass (step c) x y weights hyperplanes lr false σ
  = Some (loss, outputs, σ') →
  σ' = σ.
Proof. intros H. by apply forward_pass_repeatable in H as [-> _]. Qed.

End train_facts.

Section zero_facts.

Lemma vsum_zero n (a : matrix) :
  Forall (Forall (λ x, x = 0)) a → Forall (λ x, x = 0) (Np.vsum n a).
Proof.
  unfold Np.vsum. induction 1 as [|r a Hr _ IH]; simpl.
  - apply Forall_replicate. done.
  - clear -Hr IH. revert IH. generalize (foldr (zip_with Rplus) (replicate n 0) a).
    induction Hr as [|x r -> _ IHr]; intros [|y l] Hl; simpl; try done.
    apply Forall_cons in Hl as [-> Hl]. constructor; [lra|by apply IHr].
Qed.

Lemma vecmat_zero (a : vec) (m : matrix) v :
  Forall (Forall (λ x, x = 0)) m → Np.vecmat a m = Some v →
  Forall (λ x, x = 0) v.
Proof.
  unfold Np.vecmat. intros Hm. case_decide; [|done]. intros [= <-].
  apply vsum_zero. clear -Hm. revert a.
  induction Hm as [|r m Hr _ IH]; intros [|x a]; simpl; try done.
  constructor; [|by apply IH].
  apply Forall_fmap. eapply Forall_impl; [exact Hr|]. simpl. intros ? ->. lra.
Qed.

Lemma effective_weights_zero g w e :
  all_zero w → effective_weights g w = Some e →
  Forall (Forall (λ x, x = 0)) e.
Proof.
  unfold effective_weights, Np.dot23. intros Hw He.
  destruct (mapM _ _) as [a|] eqn:Ha; [|done]. simpl in He. simplify_eq.
  unfold Np.sum_axis1. apply Forall_fmap, Forall_forall. intros rows Hrows.
  simpl. apply vsum_zero.
  apply list_elem_of_lookup in Hrows as [i Hi].
  destruct (mapM_lookup_r _ _ _ _ _ Ha Hi) as (row & _ & Hrow).
  apply Forall_forall. intros v Hv.
  apply list_elem_of_lookup in Hv as [k Hk].
  destruct (mapM_lookup_r _ _ _ _ _ Hrow Hk) as (m & Hm & Hvm).
  eapply vecmat_zero; [|exact Hvm].
  unfold all_zero in Hw. rewrite Forall_forall in Hw. apply Hw. by eapply list_elem_of_lookup_2.
Qed.

Lemma dot_zero (a b : vec) d :
  Forall (λ x, x = 0) a → Np.dot a b = Some d → d = 0.
Proof.
  unfold Np.dot. intros Ha. case_decide; [|done]. intros [= <-].
  clear -Ha. revert b. unfold Np.sum.
  induction Ha as [|x a -> _ IH]; intros [|y b]; simpl; try done.
  rewrite IH. lra.
Qed.

Lemma dot21_zero (e : matrix) (r y : vec) :
  Forall (Forall (λ x, x = 0)) e → Np.dot21 e r = Some y →
  Forall (λ x, x = 0) y.
Proof.
  unfold Np.dot21. intros He Hy. apply Forall_forall. intros d Hd.
  apply list_elem_of_lookup in Hd as [i Hi].
  destruct (mapM_lookup_r _ _ _ _ _ Hy Hi) as (row & Hrow & Hdot).
  eapply dot_zero; [|exact Hdot].
  rewrite Forall_forall in He. apply He. by eapply list_elem_of_lookup_2.
Qed.

Lemma sigmoid_0 : sigmoid 0 = 1 / 2.
Proof. rewrite sigmoid_eq, Ropp_0, exp_0. lra. Qed.

Lemma layer_square_loss_zero lr t upd s w h a y w' :
  all_zero w → layer_square_loss lr t upd s w h a = Some (y, w') →
  Forall (λ x, x = 0) y.
Proof.
  intros Hw H. apply layer_square_loss_inv in H
    as (g & e & _ & He & Hdot & _).
  eapply dot21_zero; [|exact Hdot]. by eapply effective_weights_zero.
Qed.

Lemma layer_bernoulli_zero lr eps t upd s w h a y w' :
  eps <= 1 - eps →
  all_zero w → layer_bernoulli lr eps t upd s w h a = Some (y, w') →
  Forall (λ x, x = 1 / 2) y.
Proof.
  intros Heps Hw H. apply layer_bernoulli_inv in H
    as (g & e & h_out & _ & He & Hdot & _ & -> & _).
  apply Forall_fmap, Forall_fmap.
  eapply Forall_impl; [eapply dot21_zero; [|exact Hdot]|].
  - by eapply effective_weights_zero.
  - simpl. intros x ->. rewrite sigmoid_0. apply clip_id. lra.
Qed.

(** The prediction is the output of the last layer, computed from the
    weights the store held for it when the call began. *)
Lemma for_layers_last upd layer layers σ r_in r0 p σ' lw lh w :
  NoDup layers.*1 → (∀ l, l ∈ layers.*1 → l ∉ layers.*2) →
  for_layers upd layer layers σ r_in r0 = Some (Some p, σ') →
  last layers = Some (lw, lh) → σ !! lw = Some w →
  ∃ h a w', layer w h a = Some (p, w') ∧
            σ' !! lw = Some (if upd then w' else w).
Proof.
  intros Hnd Hdisj Hrun Hlast Hw.
  apply for_layers_trace in Hrun as (acts & Hlen & Hro & _ & Hk); [|done..].
  rewrite last_lookup in Hlast.
  destruct (Hk _ _ _ Hlast) as (w0 & h & a & y & w' & Hw0 & _ & _ & Hy & Hl & Hw').
  simplify_eq. exists h, a, w'. split; [|done].
  rewrite last_lookup, Hlen, Hy in Hro. simpl in Hro. by simplify_eq.
Qed.

End zero_facts.

Section noop_facts.

Lemma isub_zeros a b c : Np.isub a b = Some c → all_zero b → c = a.
Proof.
  unfold Np.isub, all_zero. intros Hc Hzero.
  apply broadcast_Forall2 in Hc. symmetry.
  apply list_eq_Forall2. eapply Forall2_impl; [exact Hc|].
  simpl. intros x z (y & Hy & Hz).
  rewrite Forall_forall in Hzero. apply Hzero in Hy.
  symmetry. by eapply broadcast2_sub_zeros.
Qed.

Lemma weight_decrement_zero lr (g : list (list bool)) (grad : matrix) :
  lr = 0 ∨ Forall (Forall (λ x, x = 0)) grad →
  all_zero (weight_decrement lr g grad).
Proof.
  intros Hz. unfold all_zero, weight_decrement.
  apply Forall_forall. intros m Hm.
  apply list_elem_of_lookup in Hm as [k Hk].
  apply lookup_zip_with_Some in Hk as (gi & gr & -> & _ & Hgr).
  apply Forall_fmap, Forall_true. intros b. simpl.
  apply Forall_fmap. destruct Hz as [-> | Hz].
  - apply Forall_true. intros x. simpl. lra.
  - rewrite Forall_forall in Hz.
    eapply Forall_impl; [apply Hz; by eapply list_elem_of_lookup_2|].
    simpl. intros x ->. lra.
Qed.

Lemma for_layers_same upd layer layers :
  (∀ w h a y w', layer w h a = Some (y, w') → w' = w) →
  ∀ σ r_in r0 ro σ',
    for_layers upd layer layers σ r_in r0 = Some (ro, σ') → σ' = σ.
Proof.
  intros Hlayer.
  induction layers as [|[lw lh] layers IH]; intros σ r_in r0 ro σ' Hrun;
    simpl in Hrun; [by simplify_eq|].
  destruct (σ !! lw) as [w|] eqn:Hw; [|done]. simpl in Hrun.
  destruct (σ !! lh) as [h|]; [|done]. simpl in Hrun.
  destruct (layer w h r_in) as [[y w1]|] eqn:Hy; [|done]. simpl in Hrun.
  apply Hlayer in Hy as ->. apply IH in Hrun as ->.
  destruct upd; [|done]. by apply insert_id.
Qed.

Lemma layer_square_loss_exact lr t s w h a y w' :
  layer_square_loss lr t true s w h a = Some (y, w') →
  lr = 0 ∨ Forall (λ x, x = t) y → w' = w.
Proof.
  intros H Hz. apply layer_square_loss_inv in H as (g & e & _ & _ & _ & _ & Hsub).
  eapply isub_zeros; [exact Hsub|]. apply weight_decrement_zero.
  destruct Hz as [->|Hy]; [by left|right].
  unfold grad_square_loss. apply Forall_fmap.
  eapply Forall_impl; [exact Hy|]. intros x Hx. hnf in Hx. subst x.
  unfold compose. apply Forall_fmap, Forall_true. intros z. simpl. lra.
Qed.

Lemma layer_bernoulli_lr_zero eps t s w h a y w' :
  layer_bernoulli 0 eps t true s w h a = Some (y, w') → w' = w.
Proof.
  intros H.
  apply layer_bernoulli_inv in H as (g & e & h_out & _ & _ & _ & _ & _ & Hsub).
  eapply isub_zeros; [exact Hsub|]. apply weight_decrement_zero. by left.
Qed.

End noop_facts.

Section gate_scale_facts.

Lemma dot_scaled n (v s : vec) :
  Np.dot ((λ x, x / n) <$> v) s = (λ d, d / n) <$> Np.dot v s.
Proof.
  unfold Np.dot. rewrite length_fmap. case_decide; [|done]. simpl. f_equal.
  clear. revert s. unfold Np.sum.
  induction v as [|x v IH]; intros [|y s]; csimpl;
    try (unfold Rdiv; lra).
  rewrite IH. unfold Rdiv. lra.
Qed.

Lemma gate_scaled n d :
  0 < n →
  Np.astype_bool (Np.heaviside (d / n) 0) = Np.astype_bool (Np.heaviside d 0).
Proof.
  intros Hn. rewrite !gate_heaviside. apply bool_decide_ext. split.
  - intros Hd. apply (Rmult_lt_compat_r n) in Hd; [|done].
    unfold Rdiv in Hd. rewrite Rmult_assoc, Rinv_l in Hd by lra. lra.
  - intros Hd. by apply Rdiv_lt_0_compat.
Qed.

Lemma norm_nonneg m : 0 <= norm m.
Proof. unfold norm. apply sqrt_pos. Qed.

Lemma gate_values_block_scaled n (m : matrix) s :
  0 < n →
  fmap (M := option)
    (fmap (M := list) (λ x, Np.astype_bool (Np.heaviside x 0)))
    (Np.dot21 (fmap (M := list) (fmap (M := list) (λ x, x / n)) m) s)
  = fmap (M := option)
      (fmap (M := list) (λ x, Np.astype_bool (Np.heaviside x 0)))
      (Np.dot21 m s).
Proof.
  intros Hn. unfold Np.dot21. induction m as [|v m IH]; [done|].
  csimpl. rewrite dot_scaled.
  destruct (Np.dot v s) as [d|]; [|done]. csimpl.
  destruct (mapM _ (fmap _ m)) as [c1|], (mapM _ m) as [c2|];
    csimpl in *; simplify_eq; try done.
  rewrite gate_scaled by done. congruence.
Qed.

Lemma gate_values_normalise h_ s :
  Forall (λ m, norm (init_slice m) ≠ 0) h_ →
  gate_values (normalise h_) s = gate_values h_ s.
Proof.
  intros Hn. unfold gate_values, Np.dot31, normalise.
  induction Hn as [|m h_ Hm _ IH]; [done|].
  csimpl. fold (init_slice m).
  assert (0 < norm (init_slice m)) as Hpos.
  { pose proof (norm_nonneg (init_slice m)). lra. }
  pose proof (gate_values_block_scaled _ m s Hpos) as Hblock.
  destruct (Np.dot21 (fmap _ m) s) as [c1|], (Np.dot21 m s) as [c2|];
    csimpl in *; simplify_eq; try done.
  destruct (mapM _ (fmap _ h_)) as [a1|], (mapM _ h_) as [a2|];
    csimpl in *; simplify_eq; try done.
  congruence.
Qed.

End gate_scale_facts.

Section weights_facts.

Lemma dgn_weights_lookup n_neurons : ∀ n_features n_branches k w,
  dgn_weights n_features n_branches n_neurons !! k = Some w →
  ∃ n, n_neurons !! k = Some n ∧
       w = replicate n (replicate n_branches (replicate
             (match k with
              | O => n_features
              | S k' => default 0%nat (n_neurons !! k')
              end + 1) 0)).
Proof.
  induction n_neurons as [|n n_neurons IH]; intros n_features n_branches k w.
  - by destruct k.
  - rewrite dgn_weights_cons. destruct k as [|k]; simpl.
    + intros [= <-]. by exists n.
    + intros Hw. destruct (IH _ _ _ _ Hw) as (n' & Hn' & ->).
      exists n'. split; [done|]. by destruct k.
Qed.

Lemma dgn_weights_length n_features n_branches n_neurons :
  length (dgn_weights n_features n_branches n_neurons) = length n_neurons.
Proof.
  revert n_features. induction n_neurons as [|n n_neurons IH];
    intros n_features; [done|].
  rewrite dgn_weights_cons. simpl. by rewrite IH.
Qed.

End weights_facts.

Section frame_facts.

Lemma step_frame c inputs weights hyperplanes t lr upd σ p loss σ' l :
  step c inputs weights hyperplanes t lr upd σ = Some (p, loss, σ') →
  l ∉ weights → σ' !! l = σ !! l.
Proof.
  intros Hstep Hl.
  assert (l ∉ (zip weights hyperplanes).*1) as Hl'.
  { intros Hin. apply Hl.
    apply list_elem_of_fmap in Hin as ([a b] & -> & Hin).
    by apply elem_of_zip_l in Hin. }
  destruct c; simpl in Hstep.
  - apply step_bernoulli_inv in Hstep as [Hrun _].
    by eapply for_layers_frame.
  - apply step_square_loss_inv in Hstep as [Hrun _].
    by eapply for_layers_frame.
Qed.

Lemma forward_loop_frame c xy weights hyperplanes lr upd l :
  l ∉ weights →
  ∀ σ results σ',
    forward_loop (step c) xy weights hyperplanes lr upd σ
    = Some (results, σ') →
    σ' !! l = σ !! l.
Proof.
  intros Hl. induction xy as [|[x_i y_i] xy IH]; intros σ results σ' Hloop;
    simpl in Hloop; [by simplify_eq|].
  destruct (step c x_i _ _ _ _ _ σ) as [[[r_out loss] σ1]|] eqn:Hstep;
    [|done].
  simpl in Hloop.
  destruct r_out as [|output [|]]; try done.
  destruct loss as [|l0 [|]]; try done.
  destruct (forward_loop _ xy _ _ _ _ σ1) as [[rest σ2]|] eqn:Hrest; [|done].
  simpl in Hloop. simplify_eq.
  rewrite (IH _ _ _ Hrest). by eapply step_frame.
Qed.

Lemma forward_pass_frame c x y weights hyperplanes lr upd σ loss outputs σ' l :
  forward_pass (step c) x y weights hyperplanes lr upd σ
  = Some (loss, outputs, σ') →
  l ∉ weights → σ' !! l = σ !! l.
Proof.
  unfold forward_pass. intros Hpass Hl.
  destruct (forward_loop _ _ _ _ _ _ σ) as [[results σ1]|] eqn:Hloop; [|done].
  simpl in Hpass. simplify_eq. by eapply forward_loop_frame.
Qed.

Lemma train_epochs_frame c epochs x_train y_train x_test y_test ws hs lr l :
  l ∉ ws →
  ∀ σ reports σ',
    train_epochs c epochs x_train y_train x_test y_test ws hs lr σ
    = Some (reports, σ') →
    σ' !! l = σ !! l.
Proof.
  intros Hl. induction epochs as [|e epochs IH]; intros σ reports σ' Htrain;
    simpl in Htrain; [by simplify_eq|].
  destruct (forward_pass _ x_train _ _ _ _ _ σ) as [[[l1 p1] σ1]|] eqn:Hp1;
    [|done].
  simpl in Htrain.
  destruct (forward_pass _ x_test _ _ _ _ _ σ1) as [[[l2 p2] σ2]|] eqn:Hp2;
    [|done].
  simpl in Htrain.
  assert (∃ rest σ3,
            train_epochs c epochs x_train y_train x_test y_test ws hs lr σ2
            = Some (rest, σ3) ∧ σ' = σ3) as (rest & σ3 & Hrest & ->).
  { destruct c; simpl in Htrain.
    - destruct (accuracy p1 y_train) as [a1|]; [|done]. simpl in Htrain.
      destruct (accuracy p2 y_test) as [a2|]; [|done]. simpl in Htrain.
      destruct (train_epochs _ _ _ _ _ _ _ _ _ σ2) as [[rest σ3]|]; [|done].
      simpl in Htrain. simplify_eq. eauto.
    - destruct (train_epochs _ _ _ _ _ _ _ _ _ σ2) as [[rest σ3]|]; [|done].
      simpl in Htrain. simplify_eq. eauto. }
  rewrite (IH _ _ _ Hrest).
  rewrite (forward_pass_frame _ _ _ _ _ _ _ _ _ _ _ _ Hp2 Hl).
  by eapply forward_pass_frame.
Qed.

End frame_facts.

Section init_single_facts.

Lemma init_single_output n_features n_branches n_neurons samples
    weights hyperplanes σ :
  last n_neurons = Some 1%nat →
  length samples = length n_neurons →
  init n_features n_branches n_neurons samples = (weights, hyperplanes, σ) →
  single_output σ (zip weights hyperplanes).
Proof.
  intros Hlast Hlen Hinit.
  pose proof (init_separate _ _ _ _ _ _ _ Hinit) as [_ Hdisj].
  unfold init in Hinit.
  destruct (alloc (dgn_weights _ _ _) ∅) as [ws σ1] eqn:Hw.
  destruct (alloc (dgn_hyperplanes _) σ1) as [hs σ2] eqn:Hh.
  simplify_eq.
  apply alloc_spec in Hw as (_ & _ & _ & Hws).
  apply alloc_spec in Hh as (_ & _ & Hold & Hhs).
  pose proof (Forall2_length _ _ _ Hws) as Hlw.
  pose proof (Forall2_length _ _ _ Hhs) as Hlh.
  rewrite dgn_weights_length in Hlw.
  unfold dgn_hyperplanes in Hlh. rewrite length_fmap in Hlh.
  rewrite last_lookup in Hlast.
  set (k := Nat.pred (length n_neurons)) in *.
  assert (k < length n_neurons)%nat as Hk by by eapply lookup_lt_Some.
  destruct (lookup_lt_is_Some_2 weights k) as [lw Hlwk]; [lia|].
  destruct (lookup_lt_is_Some_2 hyperplanes k) as [lh Hlhk]; [lia|].
  destruct (Forall2_lookup_l _ _ _ _ _ Hws Hlwk) as (w & Hwk & Hσ1).
  destruct (dgn_weights_lookup _ _ _ _ _ Hwk) as (n & Hn & ->).
  assert (n = 1%nat) as -> by congruence.
  eexists lw, lh, _. split_and!.
  - rewrite last_lookup, length_zip. 
    replace (Nat.pred (length weights `min` length hyperplanes)) with k by lia.
    by apply lookup_zip_Some.
  - rewrite Hold; [exact Hσ1|]. apply Hdisj. by eapply list_elem_of_lookup_2.
  - done.
Qed.

End init_single_facts.

Section more_train_facts.

Lemma train_epochs_shapes c epochs x_train y_train x_test y_test ws hs lr :
  ∀ σ reports σ',
    train_epochs c epochs x_train y_train x_test y_test ws hs lr σ
    = Some (reports, σ') →
    ∀ l, shape <$> σ' !! l = shape <$> σ !! l.
Proof.
  induction epochs as [|e epochs IH]; intros σ reports σ' Htrain l;
    simpl in Htrain; [by simplify_eq|].
  destruct (forward_pass _ x_train _ _ _ _ _ σ) as [[[l1 p1] σ1]|] eqn:Hp1;
    [|done].
  simpl in Htrain.
  destruct (forward_pass _ x_test _ _ _ _ _ σ1) as [[[l2 p2] σ2]|] eqn:Hp2;
    [|done].
  simpl in Htrain.
  assert (∃ rest σ3,
            train_epochs c epochs x_train y_train x_test y_test ws hs lr σ2
            = Some (rest, σ3) ∧ σ' = σ3) as (rest & σ3 & Hrest & ->).
  { destruct c; simpl in Htrain.
    - destruct (accuracy p1 y_train) as [a1|]; [|done]. simpl in Htrain.
      destruct (accuracy p2 y_test) as [a2|]; [|done]. simpl in Htrain.
      destruct (train_epochs _ _ _ _ _ _ _ _ _ σ2) as [[rest σ3]|]; [|done].
      simpl in Htrain. simplify_eq. eauto.
    - destruct (train_epochs _ _ _ _ _ _ _ _ _ σ2) as [[rest σ3]|]; [|done].
      simpl in Htrain. simplify_eq. eauto. }
  rewrite (IH _ _ _ Hrest l).
  rewrite (forward_pass_shapes _ _ _ _ _ _ _ _ _ _ _ Hp2 l).
  by eapply forward_pass_shapes.
Qed.

Lemma for_layers_last_layer upd layer layers σ r_in r0 p σ' lw lh :
  NoDup layers.*1 → (∀ l, l ∈ layers.*1 → l ∉ layers.*2) →
  for_layers upd layer layers σ r_in r0 = Some (Some p, σ') →
  last layers = Some (lw, lh) →
  ∃ w h a w', σ !! lw = Some w ∧ layer w h a = Some (p, w') ∧
              σ' !! lw = Some (if upd then w' else w).
Proof.
  intros Hnd Hdisj Hrun Hlast.
  apply for_layers_trace in Hrun as (acts & Hlen & Hro & _ & Hk); [|done..].
  rewrite last_lookup in Hlast.
  destruct (Hk _ _ _ Hlast) as (w & h & a & y & w' & Hw & _ & _ & Hy & Hl & Hw').
  exists w, h, a, w'. split_and!; [done| |done].
  rewrite last_lookup, Hlen, Hy in Hro. simpl in Hro. by simplify_eq.
Qed.

Lemma example_single_output : single_output example_store (zip [0%nat] [1%nat]).
Proof. exists 0%nat, 1%nat, [[[0; 0; 0]]]. by split_and!. Qed.

Lemma example_two_well_shaped :
  well_shaped example_store_two 1 3 2 (zip [0%nat] [1%nat]).
Proof.
  simpl. exists 2%nat, [[[0; 0; 0]]; [[0; 0; 0]]], [[[1; 0; 0]]; [[1; 0; 0]]].
  unfold example_store_two. split_and!; try done. lia.
Qed.

End more_train_facts.

Section slice_facts.


(** What the normalisation makes of unit norm, neuron by neuron: the slice
    [h_[:, :, :-1]], which drops the last entry of every vector. *)
Lemma normalise_slice_unit_norm samples k i h m :
  dgn_hyperplanes samples !! k = Some h → h !! i = Some m →
  ∃ h_ m_,
    samples !! k = Some h_ ∧ h_ !! i = Some m_ ∧
    (norm (init_slice m_) ≠ 0 → norm (init_slice m) = 1).
Proof.
  unfold dgn_hyperplanes, normalise. intros Hh Hm.
  rewrite list_lookup_fmap in Hh.
  destruct (samples !! k) as [h_|] eqn:Hh_; [|done]. simpl in Hh. simplify_eq.
  rewrite list_lookup_fmap in Hm.
  destruct (h_ !! i) as [m_|] eqn:Hm_; [|done]. simpl in Hm. simplify_eq.
  exists h_, m_. split_and!; [done..|].
  intros Hn. fold (init_slice m_). rewrite init_slice_scaled.
  by apply norm_normalised.
Qed.

(** [side_info] puts the bias first, the slice drops the last entry: with
    one neuron of one branch drawn as [3, 0, 4] the norm taken is 3, and
    the entries that multiply the input features become [0, 4/3]. *)
Lemma normalise_slice_example :
  dgn_hyperplanes [[[[3; 0; 4]]]] = [[[[1; 0; 4 / 3]]]].
Proof.
  unfold dgn_hyperplanes, normalise. simpl.
  assert (norm [[3; 0]] = 3) as ->.
  { unfold norm, sum_squares2. simpl.
    replace (3 * 3 + (0 * 0 + 0) + 0) with (3 * 3) by lra.
    apply sqrt_square. lra. }
  array_eq.
Qed.

End slice_facts.

Section gated_example_facts.

Lemma example_gated_gate :
  gate_values [[[1; 0; 0]; [-1; 0; 0]]] [1; 1; 1] = Some [[true; false]].
Proof.
  unfold gate_values. simpl. rewrite !gate_heaviside.
  repeat f_equal.
  - apply bool_decide_eq_true_2. lra.
  - apply bool_decide_eq_false_2. lra.
Qed.

Lemma example_gated_step_square_loss :
  step_square_loss [1; 1] [0%nat] [1%nat] 1 0.1 2 true example_store_gated
  = Some ([0], [2],
          <[0%nat := [[[0.2; 0.2; 0.2]; [5; 6; 7]]]]> example_store_gated).
Proof.
  unfold step_square_loss, Np.hstack, example_store_gated. simpl.
  rewrite lookup_insert_eq. simpl.
  rewrite lookup_insert_ne, lookup_insert_eq by done. simpl.
  rewrite !gate_heaviside.
  rewrite bool_decide_eq_true_2 by lra.
  rewrite bool_decide_eq_false_2 by lra. simpl.
  array_eq.
Qed.

Lemma example_step_bernoulli_half :
  ∃ p loss σ',
    step_bernoulli [1; 1] [0%nat] [1%nat] 1 0.1 0.01 (1 / 2) true
      example_store
    = Some (p, loss, σ').
Proof.
  apply (step_bernoulli_total _ _ _ _ _ _ _ _ _ 1%nat); [lia|done|].
  apply example_well_shaped.
Qed.

End gated_example_facts.

Section guarded_map.

Lemma sigmoid_monotone x y : x <= y → sigmoid x <= sigmoid y.
Proof.
  intros [Hlt| ->]; [|lra]. left. by apply sigmoid_increasing.
Qed.



End guarded_map.

(** * The claims *)

(** C1.  The claim: the effective weight vector of a neuron is the sum of
    the weight vectors of that neuron's own branches whose gate is on, and
    no other neuron's weights contribute.  The code does otherwise:
    [gate_values.dot(w)] pairs the gates of neuron [i] with the weights of
    every neuron [k], and [.sum(axis=1)] adds the products over [k].  On a
    layer of two neurons with one branch each, both gates on, and branch
    weights [1, 2] and [10, 20], [effective_weights] gives [11, 22] for
    both neurons where the rule of the claim gives [1, 2] and [10, 20]; on
    the incoming activation [0] the layer returns 11 for both neurons,
    where the rule of the claim would return 1 and 10. *)
Theorem effective_weights_sum_all_neurons :
  let gate := [[true]; [true]] in
  let w := [[[1; 2]]; [[10; 20]]] in
  effective_weights gate w = Some [[11; 22]; [11; 22]] ∧
  spec_effective_weights gate w = Some [[1; 2]; [10; 20]] ∧
  layer_square_loss 0 0 false [1; 0] w [[[1; 0]]; [[1; 0]]] [0]
  = Some ([11; 11], w).
Proof.
  assert (gate_values [[[1; 0]]; [[1; 0]]] [1; 0] = Some [[true]; [true]]) as Hg.
  { unfold gate_values. simpl. rewrite !gate_heaviside.
    repeat f_equal; apply bool_decide_eq_true_2; lra. }
  cbv zeta. split_and!.
  - unfold effective_weights. simpl. array_eq.
  - unfold spec_effective_weights. simpl. array_eq.
  - unfold layer_square_loss. rewrite Hg. simpl. array_eq.
Qed.

(** C2.  In the squared-loss regime with [update = True], for every layer
    [k] of a pass that returns: the gradient is
    [grad[i, m] = (r_out[i] - target) * r_in[m]], where [r_in] is the
    incoming activation with the bias unit in front and [r_out] the output
    of the layer, the same [r_in] serving every neuron; and every entry of
    the weight array changes by exactly
    [- learning_rate * gate[i, j] * grad[i, m]], the gate of an active
    branch being 1.  [acts] lists the outputs of the layers in order, the
    last being the prediction returned.  The lists hold separate arrays. *)
Theorem square_loss_update_rule inputs weights hyperplanes bias lr t σ p loss σ' :
  separate weights hyperplanes →
  step_square_loss inputs weights hyperplanes bias lr t true σ
  = Some (p, loss, σ') →
  ∃ acts : list vec,
    length acts = length (zip weights hyperplanes) ∧ last acts = Some p ∧
    ∀ k lw lh, weights !! k = Some lw → hyperplanes !! k = Some lh →
      ∃ w h w' r_in r_out gate,
        σ !! lw = Some w ∧ σ !! lh = Some h ∧ σ' !! lw = Some w' ∧
        (inputs :: acts) !! k = Some r_in ∧ acts !! k = Some r_out ∧
        layer_square_loss lr t true (bias :: inputs) w h r_in
        = Some (r_out, w') ∧
        gate_values h (bias :: inputs) = Some gate ∧
        let grad := grad_square_loss t r_out (1 :: r_in) in
        (∀ i m y a, r_out !! i = Some y → (1 :: r_in) !! m = Some a →
           item2 grad i m = Some ((y - t) * a)) ∧
        (∀ i j m b x d,
           item2 gate i j = Some b → item3 w i j m = Some x →
           item2 grad i m = Some d →
           item3 w' i j m = Some (x - lr * Np.of_bool b * d)).
Proof.
  intros Hsep Hstep.
  apply step_square_loss_inv in Hstep as [Hrun _].
  apply separate_zip in Hsep as [Hnd Hdisj].
  apply for_layers_trace in Hrun as (acts & Hlen & Hro & _ & Hk); [|done..].
  exists acts. split_and!; [done| |].
  { simpl in Hro. by destruct (last acts); simplify_eq/=. }
  intros k lw lh Hlw Hlh.
  destruct (Hk k lw lh) as (w & h & a & y & w' & Hw & Hh & Ha & Hy & Hlayer & Hw').
  { by apply lookup_zip_Some. }
  destruct (layer_square_loss_inv _ _ _ _ _ _ _ _ _ Hlayer)
    as (g & e & Hg & _ & _ & _ & Hsub).
  exists w, h, w', a, y, g. split_and!; try done.
  intros grad. split.
  - intros. by apply grad_square_loss_item.
  - intros i j m b x d Hb Hx Hd.
    eapply isub_item; [exact Hsub|done|]. by apply weight_decrement_item.
Qed.

Lemma square_loss_update_rule_witness :
  separate [0%nat] [1%nat] ∧
  step_square_loss [1; 1] [0%nat] [1%nat] 1 0.1 2 true example_store
  = Some ([0], [2], <[0%nat := [[[0.2; 0.2; 0.2]]]]> example_store) ∧
  ∃ acts : list vec, length acts = 1%nat ∧ last acts = Some [0].
Proof.
  split; [exact example_separate|]. split; [exact example_step_square_loss|].
  destruct (square_loss_update_rule _ _ _ _ _ _ _ _ _ _
              example_separate example_step_square_loss)
    as (acts & Hlen & Hlast & _).
  exists acts. split; [exact Hlen|exact Hlast].
Defined.




(** C4.  In both regimes the gates of a layer are
    [gate_values h side_info] with
    [side_info = np.hstack([hyperplane_bias_magnitude, inputs])].  For
    every (neuron, branch) pair [(i, j)] the gate is on if and only if the
    dot product of the hyperplane [h[i, j]] with the side information is
    strictly positive; a dot product of exactly zero leaves it off. *)
Theorem gate_active_iff_positive h bias inputs gate :
  gate_values h (Np.hstack bias inputs) = Some gate →
  ∀ i j v, item2 h i j = Some v →
    ∃ d b, Np.dot v (bias :: inputs) = Some d ∧ item2 gate i j = Some b ∧
           (b = true ↔ 0 < d) ∧ (d = 0 → b = false).
Proof.
  unfold gate_values, Np.hstack. intros Hgate i j v Hv.
  destruct (Np.dot31 h _) as [a|] eqn:Ha; [|done]. simpl in Hgate.
  destruct (dot31_item _ _ _ _ _ _ Ha Hv) as (d & Hd & Hitem).
  exists d, (bool_decide (0 < d)). split_and!.
  - done.
  - simplify_eq. unfold item2 in *. rewrite list_lookup_fmap.
    destruct (a !! i) as [r|]; [|done]. simpl.
    rewrite list_lookup_fmap, Hitem. simpl. by rewrite gate_heaviside.
  - apply bool_decide_eq_true.
  - intros ->. apply bool_decide_eq_false. lra.
Qed.

Lemma gate_active_iff_positive_witness :
  gate_values [[[1; 0; 0]]] (Np.hstack 1 [1; 1]) = Some [[true]] ∧
  ∃ d b, Np.dot [1; 0; 0] [1; 1; 1] = Some d ∧
         item2 [[true]] 0 0 = Some b ∧
         (b = true ↔ 0 < d) ∧ (d = 0 → b = false).
Proof.
  split; [exact example_gate|].
  exact (gate_active_iff_positive [[[1; 0; 0]]] 1 [1; 1] [[true]]
           example_gate 0%nat 0%nat [1; 0; 0] eq_refl).
Defined.

(** C5.  When [epsilon <= 1 - epsilon], every activation vector the body
    of the loop of [step_bernoulli] produces, whatever the arrays and the
    incoming activation, and the prediction [step_bernoulli] returns, have
    all their entries in [[epsilon, 1 - epsilon]]. *)
Theorem bernoulli_outputs_clipped inputs weights hyperplanes bias lr eps t upd σ
    p loss σ' :
  eps <= 1 - eps →
  (∀ s w h r_in r_out w',
     layer_bernoulli lr eps t upd s w h r_in = Some (r_out, w') →
     Forall (λ y, eps <= y <= 1 - eps) r_out) ∧
  (step_bernoulli inputs weights hyperplanes bias lr eps t upd σ
   = Some (p, loss, σ') →
   Forall (λ y, eps <= y <= 1 - eps) p).
Proof.
  intros Heps.
  assert (∀ s w h r_in r_out w',
     layer_bernoulli lr eps t upd s w h r_in = Some (r_out, w') →
     Forall (λ y, eps <= y <= 1 - eps) r_out) as Hlayer.
  { intros s w h r_in r_out w' H.
    apply layer_bernoulli_inv in H as (g & e & h_out & _ & _ & _ & _ & -> & _).
    apply Forall_fmap, Forall_true. intros x. simpl. by apply clip_bounds. }
  split; [done|]. intros Hstep.
  apply step_bernoulli_inv in Hstep as [Hrun _].
  eapply (for_layers_output (λ p, Forall (λ y, eps <= y <= 1 - eps) p));
    [|exact Hrun|done].
  intros. by eapply Hlayer.
Qed.

Lemma bernoulli_outputs_clipped_witness :
  0.01 <= 1 - 0.01 ∧
  ∃ p loss σ',
    step_bernoulli [1; 1] [0%nat] [1%nat] 1 0.1 0.01 1 true example_store
    = Some (p, loss, σ') ∧
    Forall (λ y, 0.01 <= y <= 1 - 0.01) p.
Proof.
  assert (0.01 <= 1 - 0.01) as Heps by lra.
  split; [exact Heps|].
  destruct (example_step_bernoulli true) as (p & loss & σ' & Hstep).
  exists p, loss, σ'. split; [exact Hstep|].
  exact (proj2 (bernoulli_outputs_clipped _ _ _ _ _ _ _ _ _ _ _ _ Heps) Hstep).
Defined.

(** C6.  In either regime, for a call that returns, whatever [update]:
    the hyperplane arrays, and every array that is not in [weights], are
    as before the call; every weight array keeps its shape; and the
    weights of every branch whose gate is off for this example are as
    before the call.  The lists hold separate arrays. *)
Theorem update_frame inputs weights hyperplanes bias lr eps t
    (regime : bool → store → option (vec * vec * store)) upd σ p loss σ' :
  regime = step_square_loss inputs weights hyperplanes bias lr t ∨
  regime = step_bernoulli inputs weights hyperplanes bias lr eps t →
  separate weights hyperplanes →
  regime upd σ = Some (p, loss, σ') →
  (∀ lh, lh ∈ hyperplanes → σ' !! lh = σ !! lh) ∧
  (∀ l, l ∉ weights → σ' !! l = σ !! l) ∧
  ∀ k lw lh, weights !! k = Some lw → hyperplanes !! k = Some lh →
    ∃ w h w' gate,
      σ !! lw = Some w ∧ σ !! lh = Some h ∧ σ' !! lw = Some w' ∧
      gate_values h (bias :: inputs) = Some gate ∧ shape w' = shape w ∧
      ∀ i j v, item2 gate i j = Some false → item2 w i j = Some v →
               item2 w' i j = Some v.
Proof.
  intros [->| ->] Hsep Hstep.
  - apply step_square_loss_inv in Hstep as [Hrun _].
    eapply for_layers_frame_layers; [|done|exact Hrun].
    apply layer_square_loss_frame.
  - apply step_bernoulli_inv in Hstep as [Hrun _].
    eapply for_layers_frame_layers; [|done|exact Hrun].
    apply layer_bernoulli_frame.
Qed.

Lemma update_frame_witness :
  separate [0%nat] [1%nat] ∧
  step_square_loss [1; 1] [0%nat] [1%nat] 1 0.1 2 true example_store_gated
  = Some ([0], [2],
          <[0%nat := [[[0.2; 0.2; 0.2]; [5; 6; 7]]]]> example_store_gated) ∧
  ∃ w h w' gate,
    example_store_gated !! 0%nat = Some w ∧
    example_store_gated !! 1%nat = Some h ∧
    (<[0%nat := [[[0.2; 0.2; 0.2]; [5; 6; 7]]]]> example_store_gated)
      !! 0%nat = Some w' ∧
    (<[0%nat := [[[0.2; 0.2; 0.2]; [5; 6; 7]]]]> example_store_gated)
      !! 1%nat = example_store_gated !! 1%nat ∧
    gate_values h [1; 1; 1] = Some gate ∧
    item2 gate 0 1 = Some false ∧
    item2 w 0 1 = Some [5; 6; 7] ∧
    item2 w' 0 1 = Some [5; 6; 7].
Proof.
  split; [exact example_separate|].
  split; [exact example_gated_step_square_loss|].
  destruct (update_frame [1; 1] [0%nat] [1%nat] 1 0.1 0.01 2 _ true
              example_store_gated _ _ _ (or_introl eq_refl)
              example_separate example_gated_step_square_loss)
    as (Hhyp & _ & Hlayers).
  destruct (Hlayers 0%nat 0%nat 1%nat eq_refl eq_refl)
    as (w & h & w' & gate & Hw & Hh & Hw' & Hgate & _ & Hoff).
  exists w, h, w', gate.
  assert (w = [[[0; 0; 0]; [5; 6; 7]]]) as Hweq
    by (unfold example_store_gated in Hw; rewrite lookup_insert_eq in Hw;
        congruence).
  assert (h = [[[1; 0; 0]; [-1; 0; 0]]]) as Hheq.
  { unfold example_store_gated in Hh.
    rewrite lookup_insert_ne, lookup_insert_eq in Hh by done. congruence. }
  assert (gate = [[true; false]]) as Hgeq.
  { rewrite Hheq, example_gated_gate in Hgate. congruence. }
  split; [exact Hw|]. split; [exact Hh|]. split; [exact Hw'|].
  split; [apply Hhyp; apply list_elem_of_here|].
  split; [exact Hgate|].
  assert (item2 gate 0 1 = Some false) as Hg01 by (by rewrite Hgeq).
  assert (item2 w 0 1 = Some [5; 6; 7]) as Hw01 by (by rewrite Hweq).
  split; [exact Hg01|]. split; [exact Hw01|].
  exact (Hoff 0%nat 1%nat _ Hg01 Hw01).
Defined.

(** C7.  In the Bernoulli regime with [update = True], for every layer and
    every unit [i] of it, with [q] the output of the sigmoid before
    clipping: when [|target - q| <= epsilon] all the weights of the unit
    are as before the call; when [|target - q| > epsilon] every entry of
    its weights changes by
    [- learning_rate * gate[i, j] * (clip(q) - target) * h_in[m]], where
    [h_in] is the incoming activation in log-odds space.  The lists hold
    separate arrays. *)
Theorem bernoulli_update_indicator inputs weights hyperplanes bias lr eps t σ
    p loss σ' :
  separate weights hyperplanes →
  step_bernoulli inputs weights hyperplanes bias lr eps t true σ
  = Some (p, loss, σ') →
  ∃ acts : list vec,
    length acts = length (zip weights hyperplanes) ∧ last acts = Some p ∧
    ∀ k lw lh, weights !! k = Some lw → hyperplanes !! k = Some lh →
      ∃ w h w' r_in r_out gate e h_out,
        let h_in := inverse_sigmoid <$> (sigmoid 1 :: r_in) in
        let r_out_unclipped := sigmoid <$> h_out in
        σ !! lw = Some w ∧ σ !! lh = Some h ∧ σ' !! lw = Some w' ∧
        (((λ x, Np.clip (sigmoid x) eps (1 - eps)) <$> inputs) :: acts) !! k
        = Some r_in ∧
        acts !! k = Some r_out ∧
        gate_values h (bias :: inputs) = Some gate ∧
        effective_weights gate w = Some e ∧
        Np.dot21 e h_in = Some h_out ∧
        r_out = (λ q, Np.clip q eps (1 - eps)) <$> r_out_unclipped ∧
        ∀ i q, r_out_unclipped !! i = Some q →
          (Rabs (t - q) <= eps → w' !! i = w !! i) ∧
          (Rabs (t - q) > eps →
           ∀ j m b x a,
             item2 gate i j = Some b → item3 w i j m = Some x →
             h_in !! m = Some a →
             item3 w' i j m
             = Some (x - lr * Np.of_bool b
                         * ((Np.clip q eps (1 - eps) - t) * a))).
Proof.
  intros Hsep Hstep.
  apply step_bernoulli_inv in Hstep as [Hrun _].
  apply separate_zip in Hsep as [Hnd Hdisj].
  apply for_layers_trace in Hrun as (acts & Hlen & Hro & _ & Hk); [|done..].
  exists acts. split_and!; [done| |].
  { simpl in Hro. by destruct (last acts); simplify_eq/=. }
  intros k lw lh Hlw Hlh.
  destruct (Hk k lw lh) as (w & h & a & y & w' & Hw & Hh & Ha & Hy & Hlayer & Hw').
  { by apply lookup_zip_Some. }
  destruct (layer_bernoulli_inv _ _ _ _ _ _ _ _ _ _ Hlayer)
    as (g & e & h_out & Hg & He & Hdot & Hlenh & Hyeq & Hsub).
  exists w, h, w', a, y, g, e, h_out. cbv zeta.
  split_and!; try done.
  intros i q Hq.
  pose proof (update_indicator_lookup eps t _ _ _ Hq) as Hind.
  assert (y !! i = Some (Np.clip q eps (1 - eps))) as Hyi.
  { by rewrite Hyeq, list_lookup_fmap, Hq. }
  split.
  - intros Hle. eapply isub_unit_skipped; [exact Hsub|..].
    + unfold update_indicator. rewrite !length_fmap.
      apply gate_values_length in Hg. congruence.
    + unfold update_indicator. by rewrite Hyeq, !length_fmap.
    + rewrite Hind. f_equal. apply bool_decide_eq_false. unfold Rgt. lra.
  - intros Hgt j m b x a0 Hb Hx Ha0.
    replace (x - lr * Np.of_bool b * ((Np.clip q eps (1 - eps) - t) * a0))
      with (x - lr * Np.of_bool b
                * ((Np.clip q eps (1 - eps) - t) * a0 * Np.of_bool true))
      by (simpl; lra).
    eapply isub_item; [exact Hsub|done|].
    apply weight_decrement_item; [done|].
    unfold item2. erewrite grad_bernoulli_lookup; [|exact Hyi|].
    + by rewrite list_lookup_fmap, Ha0.
    + rewrite Hind. f_equal. by apply bool_decide_eq_true.
Qed.

Lemma bernoulli_update_indicator_witness :
  separate [0%nat] [1%nat] ∧
  ∃ p loss σ',
    step_bernoulli [1; 1] [0%nat] [1%nat] 1 0.1 0.01 (1 / 2) true
      example_store
    = Some (p, loss, σ') ∧
    ∃ w w' (h_out : vec) q,
      example_store !! 0%nat = Some w ∧ σ' !! 0%nat = Some w' ∧
      p = (λ q, Np.clip q 0.01 (1 - 0.01)) <$> (sigmoid <$> h_out) ∧
      (sigmoid <$> h_out) !! 0%nat = Some q ∧
      Rabs (1 / 2 - q) <= 0.01 ∧
      w' !! 0%nat = w !! 0%nat.
Proof.
  split; [exact example_separate|].
  destruct example_step_bernoulli_half as (p & loss & σ' & Hstep).
  exists p, loss, σ'. split; [exact Hstep|].
  destruct (bernoulli_update_indicator _ _ _ _ _ _ _ _ _ _ _
              example_separate Hstep) as (acts & Hlen & Hlast & Hlayers).
  destruct (Hlayers 0%nat 0%nat 1%nat eq_refl eq_refl)
    as (w & h & w' & r_in & r_out & gate & e & h_out
        & Hw & Hh & Hw' & Hrin & Hrout & Hgate & He & Hdot & Hr & Hunit).
  assert (w = [[[0; 0; 0]]]) as Hweq
    by (unfold example_store in Hw; rewrite lookup_insert_eq in Hw;
        congruence).
  assert (h = [[[1; 0; 0]]]) as Hheq.
  { unfold example_store in Hh.
    rewrite lookup_insert_ne, lookup_insert_eq in Hh by done. congruence. }
  assert (gate = [[true]]) as Hgeq.
  { rewrite Hheq, example_gate in Hgate. congruence. }
  assert (Forall (λ x, x = 0) h_out) as Hzero.
  { eapply dot21_zero; [|exact Hdot].
    eapply effective_weights_zero; [|exact He].
    rewrite Hweq. unfold all_zero. by repeat constructor. }
  assert (length h_out = 1%nat) as Hone.
  { simpl in Hrin. injection Hrin as <-.
    rewrite Hgeq, Hweq in He. simpl in He. injection He as <-.
    simpl in Hdot. injection Hdot as <-. reflexivity. }
  assert (p = r_out) as Hp.
  { destruct acts as [|y [|y' acts]]; [discriminate Hlen| |discriminate Hlen].
    simpl in Hlast, Hrout. congruence. }
  rewrite Hr in Hp.
  destruct h_out as [|x [|x' h_out]]; [discriminate Hone| |discriminate Hone].
  assert (x = 0) as Hx by (by inversion Hzero).
  exists w, w', [x], (sigmoid x).
  split; [exact Hw|]. split; [exact Hw'|]. split; [exact Hp|].
  split; [reflexivity|].
  assert (Rabs (1 / 2 - sigmoid x) <= 0.01) as Hq.
  { rewrite Hx, sigmoid_0.
    replace (1 / 2 - 1 / 2) with 0 by lra. rewrite Rabs_R0. lra. }
  split; [exact Hq|].
  exact (proj1 (Hunit 0%nat (sigmoid x) eq_refl) Hq).
Defined.

(** C8.  In either regime, a call with [update = False] that returns
    leaves the store as it found it, and the same call made again returns
    the same prediction and the same loss, again without a change to the
    store - and so however often it is repeated. *)
Theorem inference_leaves_state inputs weights hyperplanes bias lr eps t
    (regime : bool → store → option (vec * vec * store)) σ p loss σ' :
  regime = step_square_loss inputs weights hyperplanes bias lr t ∨
  regime = step_bernoulli inputs weights hyperplanes bias lr eps t →
  regime false σ = Some (p, loss, σ') →
  σ' = σ ∧ regime false σ' = Some (p, loss, σ').
Proof.
  intros [->| ->] Hstep.
  - assert (σ' = σ) as ->; [|done].
    apply step_square_loss_inv in Hstep as [Hrun _].
    by apply for_layers_no_update in Hrun.
  - assert (σ' = σ) as ->; [|done].
    apply step_bernoulli_inv in Hstep as [Hrun _].
    by apply for_layers_no_update in Hrun.
Qed.

Lemma inference_leaves_state_witness :
  step_square_loss [1; 1] [0%nat] [1%nat] 1 0.1 2 false example_store
  = Some ([0], [2], example_store) ∧
  example_store = example_store ∧
  step_square_loss [1; 1] [0%nat] [1%nat] 1 0.1 2 false example_store
  = Some ([0], [2], example_store).
Proof.
  split; [exact example_step_square_loss_inference|].
  exact (inference_leaves_state [1; 1] [0%nat] [1%nat] 1 0.1 0.01 2 _
           example_store _ _ _ (or_introl eq_refl)
           example_step_square_loss_inference).
Defined.

(** C9.  One layer of one neuron with one branch, two input features,
    weights all zero, a hyperplane [h] that opens the gate of the branch:
    [step_square_loss] with inputs [1, 1], target 2, learning rate 0.1 and
    [update = True] returns the prediction 0 and the loss 2 and leaves the
    weight vector [0.2, 0.2, 0.2], the weight of the bias unit first
    ([square_loss_first_step] tells the three entries apart). *)
Theorem square_loss_single_step bias (h : vec) lw lh (σ : store) :
  σ !! lw = Some [[[0; 0; 0]]] →
  σ !! lh = Some [[h]] →
  gate_values [[h]] (bias :: [1; 1]) = Some [[true]] →
  step_square_loss [1; 1] [lw] [lh] bias 0.1 2 true σ
  = Some ([0], [2], <[lw := [[[0.2; 0.2; 0.2]]]]> σ).
Proof.
  intros Hw Hh Hgate. unfold step_square_loss, Np.hstack. simpl.
  rewrite Hw. simpl. rewrite Hh. simpl.
  unfold layer_square_loss, Np.hstack. rewrite Hgate. simpl.
  array_eq.
Qed.

Lemma square_loss_single_step_witness :
  step_square_loss [1; 1] [0%nat] [1%nat] 1 0.1 2 true example_store
  = Some ([0], [2], <[0%nat := [[[0.2; 0.2; 0.2]]]]> example_store).
Proof.
  apply (square_loss_single_step 1 [1; 0; 0] 0%nat 1%nat example_store).
  - reflexivity.
  - reflexivity.
  - exact example_gate.
Defined.

(** C10.  In either regime, when the call with [update = True] returns a
    prediction and a loss, the call with [update = False] from the same
    store returns that prediction and that loss: the output of every layer
    is computed from the weights as they were when the call began.  The
    lists hold separate arrays. *)
Theorem update_does_not_change_output inputs weights hyperplanes bias lr eps t
    (regime : bool → store → option (vec * vec * store)) σ p loss σ' :
  regime = step_square_loss inputs weights hyperplanes bias lr t ∨
  regime = step_bernoulli inputs weights hyperplanes bias lr eps t →
  separate weights hyperplanes →
  regime true σ = Some (p, loss, σ') →
  regime false σ = Some (p, loss, σ).
Proof.
  intros Hregime Hsep Hstep. apply separate_zip in Hsep as [Hnd Hdisj].
  destruct Hregime as [->| ->].
  - apply step_square_loss_inv in Hstep as [Hrun ->].
    unfold step_square_loss, Np.hstack.
    rewrite (for_layers_update_irrelevant _ _ _ _ _ _ _ _
               (layer_square_loss_no_update lr t (bias :: inputs))
               Hnd Hdisj Hrun).
    done.
  - apply step_bernoulli_inv in Hstep as [Hrun ->].
    unfold step_bernoulli, Np.hstack.
    rewrite (for_layers_update_irrelevant _ _ _ _ _ _ _ _
               (layer_bernoulli_no_update lr eps t (bias :: inputs))
               Hnd Hdisj Hrun).
    done.
Qed.

Lemma update_does_not_change_output_witness :
  separate [0%nat] [1%nat] ∧
  step_square_loss [1; 1] [0%nat] [1%nat] 1 0.1 2 true example_store
  = Some ([0], [2], <[0%nat := [[[0.2; 0.2; 0.2]]]]> example_store) ∧
  step_square_loss [1; 1] [0%nat] [1%nat] 1 0.1 2 false example_store
  = Some ([0], [2], example_store).
Proof.
  split; [exact example_separate|]. split; [exact example_step_square_loss|].
  exact (update_does_not_change_output [1; 1] [0%nat] [1%nat] 1 0.1 0.01 2 _
           example_store _ _ _ (or_introl eq_refl)
           example_separate example_step_square_loss).
Defined.

(** * Further properties of the code *)

(** X1.  [sigmoid], written in the notebook as
    [exp(-logaddexp(0, -x))], is the logistic function
    [1 / (1 + exp(-x))], and its values lie between 0 and 1. *)
Theorem sigmoid_is_logistic x :
  sigmoid x = 1 / (1 + exp (- x)) ∧ 0 <= sigmoid x <= 1.
Proof.
  split; [rewrite sigmoid_eq; unfold Rdiv; lra|].
  pose proof (sigmoid_range x). lra.
Qed.

(** X2.  The first lines of the body of [step_bernoulli] take the
    log-odds of the clipped sigmoid.  With [0 < epsilon], wherever
    [sigmoid(x)] is not clipped ([epsilon <= sigmoid(x) <= 1 - epsilon])
    this gives [x] back. *)
Theorem inverse_sigmoid_after_sigmoid eps x :
  0 < eps → eps <= sigmoid x <= 1 - eps →
  inverse_sigmoid (Np.clip (sigmoid x) eps (1 - eps)) = x.
Proof.
  intros _ Hx. rewrite clip_id by done. apply inverse_sigmoid_sigmoid.
Qed.

Lemma inverse_sigmoid_after_sigmoid_witness :
  inverse_sigmoid (Np.clip (sigmoid 0) 0.01 (1 - 0.01)) = 0.
Proof.
  apply (inverse_sigmoid_after_sigmoid 0.01 0); [lra|].
  rewrite sigmoid_0. lra.
Defined.

(** X3.  [sigmoid] undoes [inverse_sigmoid] on probabilities strictly
    between 0 and 1. *)
Theorem sigmoid_after_inverse_sigmoid p :
  0 < p < 1 → sigmoid (inverse_sigmoid p) = p.
Proof. apply sigmoid_inverse_sigmoid. Qed.

Lemma sigmoid_after_inverse_sigmoid_witness :
  0 < 1 / 2 < 1 ∧ sigmoid (inverse_sigmoid (1 / 2)) = 1 / 2.
Proof.
  assert (0 < 1 / 2 < 1) as H by lra.
  split; [exact H|]. exact (sigmoid_after_inverse_sigmoid (1 / 2) H).
Defined.

(** X4.  [sigmoid] is non-decreasing. *)
Theorem sigmoid_non_decreasing x y : x <= y → sigmoid x <= sigmoid y.
Proof. apply sigmoid_monotone. Qed.

Lemma sigmoid_non_decreasing_witness :
  0 <= 1 ∧ sigmoid 0 <= sigmoid 1.
Proof.
  assert (0 <= 1) as H by lra.
  split; [exact H|]. exact (sigmoid_non_decreasing 0 1 H).
Defined.

(** X5.  One layer, without update, in the two regimes: when none of the
    incoming activations [sigmoid(v)] is clipped, the Bernoulli layer, fed
    the clipped sigmoids of [r_in], returns the clipped sigmoids of what
    the squared-loss layer returns on [r_in] with the same arrays. *)
Theorem bernoulli_layer_of_square_loss_layer lr lr' eps t t' s w h
    (r_in r_out : vec) w' :
  Forall (λ v, eps <= sigmoid v <= 1 - eps) r_in →
  layer_square_loss lr t false s w h r_in = Some (r_out, w') →
  layer_bernoulli lr' eps t' false s w h
    ((λ v, Np.clip (sigmoid v) eps (1 - eps)) <$> r_in)
  = Some ((λ v, Np.clip (sigmoid v) eps (1 - eps)) <$> r_out, w').
Proof. apply layer_bernoulli_of_square_loss. Qed.

Lemma bernoulli_layer_of_square_loss_layer_witness :
  Forall (λ v, 0.01 <= sigmoid v <= 1 - 0.01) [0] ∧
  ∃ r_out,
    layer_square_loss 0.1 2 false [1; 0] [[[0; 0]]] [[[1; 0]]] [0]
    = Some (r_out, [[[0; 0]]]) ∧
    layer_bernoulli 0.1 0.01 1 false [1; 0] [[[0; 0]]] [[[1; 0]]]
      ((λ v, Np.clip (sigmoid v) 0.01 (1 - 0.01)) <$> [0])
    = Some ((λ v, Np.clip (sigmoid v) 0.01 (1 - 0.01)) <$> r_out,
            [[[0; 0]]]).
Proof.
  assert (Forall (λ v, 0.01 <= sigmoid v <= 1 - 0.01) [0]) as Hin.
  { constructor; [|constructor]. rewrite sigmoid_0. lra. }
  split; [exact Hin|].
  eexists. split; [reflexivity|].
  apply (bernoulli_layer_of_square_loss_layer 0.1 0.1 0.01 2 1);
    [exact Hin|reflexivity].
Defined.



(** X7.  With [0 < epsilon <= 1 - epsilon] and a target between 0 and 1,
    every loss [step_bernoulli] returns lies between 0 and
    [-log(epsilon)]: the clipping keeps the logarithms bounded. *)
Theorem bernoulli_loss_is_bounded inputs weights hyperplanes bias lr eps t upd σ
    p loss σ' :
  0 < eps → eps <= 1 - eps → 0 <= t <= 1 →
  step_bernoulli inputs weights hyperplanes bias lr eps t upd σ
  = Some (p, loss, σ') →
  Forall (λ l, 0 <= l <= - ln eps) loss.
Proof.
  intros Hpos Heps Ht Hstep.
  pose proof (step_bernoulli_range _ _ _ _ _ _ _ _ _ _ _ _ Heps Hstep) as Hp.
  apply step_bernoulli_inv in Hstep as [_ ->].
  apply Forall_fmap. eapply Forall_impl; [exact Hp|]. simpl.
  intros y Hy. by apply bernoulli_loss_entry.
Qed.

Lemma bernoulli_loss_is_bounded_witness :
  ∃ p loss σ',
    step_bernoulli [1; 1] [0%nat] [1%nat] 1 0.1 0.01 1 true example_store
    = Some (p, loss, σ') ∧
    Forall (λ l, 0 <= l <= - ln 0.01) loss.
Proof.
  destruct (example_step_bernoulli true) as (p & loss & σ' & Hstep).
  exists p, loss, σ'. split; [exact Hstep|].
  assert (0 < 0.01) as H1 by lra.
  assert (0.01 <= 1 - 0.01) as H2 by lra.
  assert (0 <= 1 <= 1) as H3 by lra.
  exact (bernoulli_loss_is_bounded _ _ _ _ _ _ _ _ _ _ _ _ H1 H2 H3 Hstep).
Defined.

(** X8.  With no layer to run - [weights] or [hyperplanes] empty - both
    step functions raise: [r_out] is never bound. *)
Theorem step_without_layers inputs weights hyperplanes bias lr eps t upd σ :
  weights = [] ∨ hyperplanes = [] →
  step_square_loss inputs weights hyperplanes bias lr t upd σ = None ∧
  step_bernoulli inputs weights hyperplanes bias lr eps t upd σ = None.
Proof.
  intros Hempty.
  assert (zip weights hyperplanes = []) as Hzip.
  { destruct Hempty as [-> | ->]; [done|by destruct weights]. }
  unfold step_square_loss, step_bernoulli. by rewrite Hzip.
Qed.

Lemma step_without_layers_witness :
  step_square_loss [1; 1] [] [1%nat] 1 0.1 2 true example_store = None ∧
  step_bernoulli [1; 1] [] [1%nat] 1 0.1 0.01 2 true example_store = None.
Proof.
  exact (step_without_layers [1; 1] [] [1%nat] 1 0.1 0.01 2 true
           example_store (or_introl eq_refl)).
Defined.

(** X9.  [zip(weights, hyperplanes)] stops at the shorter list: the
    arrays of the longer list that have no partner play no part in the
    call. *)
Theorem step_ignores_unpaired inputs weights hyperplanes bias lr eps t upd σ :
  let ws := take (length hyperplanes) weights in
  let hs := take (length weights) hyperplanes in
  step_square_loss inputs weights hyperplanes bias lr t upd σ
  = step_square_loss inputs ws hs bias lr t upd σ ∧
  step_bernoulli inputs weights hyperplanes bias lr eps t upd σ
  = step_bernoulli inputs ws hs bias lr eps t upd σ.
Proof.
  cbv zeta. unfold step_square_loss, step_bernoulli.
  by rewrite zip_with_take_both.
Qed.

(** X10.  A hyperplane array holding a vector whose length is not
    [n_features + 1] makes both step functions raise, in whichever layer
    it sits, with or without update. *)
Theorem step_rejects_hyperplane_width inputs weights hyperplanes bias lr eps t
    upd σ k lw lh h i j v :
  weights !! k = Some lw → hyperplanes !! k = Some lh →
  σ !! lh = Some h → item2 h i j = Some v →
  length v ≠ S (length inputs) →
  step_square_loss inputs weights hyperplanes bias lr t upd σ = None ∧
  step_bernoulli inputs weights hyperplanes bias lr eps t upd σ = None.
Proof.
  intros Hlw Hlh Hh Hv Hlen.
  assert (zip weights hyperplanes !! k = Some (lw, lh)) as Hk
    by by apply lookup_zip_Some.
  assert (item2 (shape h) i j = Some (length v)) as Hn
    by (apply item2_shape; eauto).
  split.
  - assert (∀ w h' a i' j' n,
              item2 (shape h') i' j' = Some n → n ≠ length (bias :: inputs) →
              layer_square_loss lr t upd (bias :: inputs) w h' a = None)
      as Hbad.
    { intros w h' a i' j' n Hn' Hne. unfold layer_square_loss.
      by erewrite gate_values_bad_width. }
    unfold step_square_loss, Np.hstack.
    by rewrite (for_layers_bad_hyperplane _ _ _ _ Hbad
                  (layer_square_loss_shape lr t upd (bias :: inputs))
                  _ _ _ _ _ _ _ _ _ _ Hk Hh Hn Hlen).
  - assert (∀ w h' a i' j' n,
              item2 (shape h') i' j' = Some n → n ≠ length (bias :: inputs) →
              layer_bernoulli lr eps t upd (bias :: inputs) w h' a = None)
      as Hbad.
    { intros w h' a i' j' n Hn' Hne. unfold layer_bernoulli.
      by erewrite gate_values_bad_width. }
    unfold step_bernoulli, Np.hstack.
    by rewrite (for_layers_bad_hyperplane _ _ _ _ Hbad
                  (layer_bernoulli_shape lr eps t upd (bias :: inputs))
                  _ _ _ _ _ _ _ _ _ _ Hk Hh Hn Hlen).
Qed.

Lemma step_rejects_hyperplane_width_witness :
  step_square_loss [1] [0%nat] [1%nat] 1 0.1 2 true example_store = None ∧
  step_bernoulli [1] [0%nat] [1%nat] 1 0.1 0.01 2 true example_store = None.
Proof.
  apply (step_rejects_hyperplane_width [1] [0%nat] [1%nat] 1 0.1 0.01 2 true
           example_store 0 0%nat 1%nat [[[1; 0; 0]]] 0 0 [1; 0; 0]);
    try reflexivity.
  simpl. lia.
Defined.

(** X11.  A step of either regime that returns, with or without update
    and whether or not arrays are shared between the lists, leaves every
    array of the store with the shape it had, and stores no new array. *)
Theorem step_keeps_every_shape inputs weights hyperplanes bias lr eps t
    (regime : bool → store → option (vec * vec * store)) upd σ p loss σ' :
  regime = step_square_loss inputs weights hyperplanes bias lr t ∨
  regime = step_bernoulli inputs weights hyperplanes bias lr eps t →
  regime upd σ = Some (p, loss, σ') →
  ∀ l, shape <$> σ' !! l = shape <$> σ !! l.
Proof.
  intros [->| ->] Hstep.
  - apply step_square_loss_inv in Hstep as [Hrun _].
    eapply for_layers_shapes; [|exact Hrun]. apply layer_square_loss_shape.
  - apply step_bernoulli_inv in Hstep as [Hrun _].
    eapply for_layers_shapes; [|exact Hrun]. apply layer_bernoulli_shape.
Qed.

Lemma step_keeps_every_shape_witness :
  step_square_loss [1; 1] [0%nat] [1%nat] 1 0.1 2 true example_store
  = Some ([0], [2], <[0%nat := [[[0.2; 0.2; 0.2]]]]> example_store) ∧
  ∀ l, shape <$> (<[0%nat := [[[0.2; 0.2; 0.2]]]]> example_store) !! l
       = shape <$> example_store !! l.
Proof.
  split; [exact example_step_square_loss|].
  exact (step_keeps_every_shape [1; 1] [0%nat] [1%nat] 1 0.1 0.01 2 _ true
           example_store _ _ _ (or_introl eq_refl)
           example_step_square_loss).
Defined.

(** X12.  On a network whose arrays agree in shape, with inputs of the
    width the network was built for, a step of either regime returns, with
    or without update; the prediction and the loss have one entry per
    neuron of the last layer. *)
Theorem step_returns_on_well_shaped inputs weights hyperplanes bias lr eps t
    (regime : bool → store → option (vec * vec * store)) upd σ b lw lh w :
  regime = step_square_loss inputs weights hyperplanes bias lr t ∨
  regime = step_bernoulli inputs weights hyperplanes bias lr eps t →
  (0 < b)%nat →
  well_shaped σ b (S (length inputs)) (length inputs)
    (zip weights hyperplanes) →
  last (zip weights hyperplanes) = Some (lw, lh) → σ !! lw = Some w →
  ∃ p loss σ',
    regime upd σ = Some (p, loss, σ') ∧
    length p = length w ∧ length loss = length w.
Proof.
  intros [->| ->] Hb Hws Hlast Hw.
  - by eapply step_square_loss_total_last.
  - by eapply step_bernoulli_total_last.
Qed.

Lemma step_returns_on_well_shaped_witness :
  ∃ p loss σ',
    step_bernoulli [1; 1] [0%nat] [1%nat] 1 0.1 0.01 1 true example_store
    = Some (p, loss, σ') ∧
    length p = 1%nat ∧ length loss = 1%nat.
Proof.
  apply (step_returns_on_well_shaped [1; 1] [0%nat] [1%nat] 1 0.1 0.01 1 _
           true example_store 1 0%nat 1%nat [[[0; 0; 0]]]
           (or_intror eq_refl)).
  - lia.
  - exact example_well_shaped.
  - reflexivity.
  - reflexivity.
Defined.

(** X13.  On a network whose arrays agree in shape and whose last layer
    has a single neuron, [forward_pass] over examples of the right width
    returns, in either regime, training or not; it returns one output per
    target. *)
Theorem forward_pass_returns c x y weights hyperplanes lr upd σ b n_features :
  (0 < b)%nat →
  Forall (λ x_i : vec, length x_i = n_features) x →
  well_shaped σ b (S n_features) n_features (zip weights hyperplanes) →
  single_output σ (zip weights hyperplanes) →
  ∃ loss outputs σ',
    forward_pass (step c) x y weights hyperplanes lr upd σ
    = Some (loss, outputs, σ') ∧
    length outputs = length y.
Proof.
  intros Hb Hx Hws Hone.
  destruct (forward_pass_total c x y weights hyperplanes lr upd σ b
              n_features Hb Hx Hws Hone) as (loss & outputs & σ' & Hpass).
  exists loss, outputs, σ'. split; [done|]. by eapply forward_pass_length.
Qed.

Lemma forward_pass_returns_witness :
  ∃ loss outputs σ',
    forward_pass (step true) [[1; 1]] [1] [0%nat] [1%nat] 0.1 true
      example_store
    = Some (loss, outputs, σ') ∧
    length outputs = 1%nat.
Proof.
  apply (forward_pass_returns true [[1; 1]] [1] [0%nat] [1%nat] 0.1 true
           example_store 1 2).
  - lia.
  - constructor; [reflexivity|constructor].
  - exact example_well_shaped.
  - exact example_single_output.
Defined.

(** X14.  [outputs] and [losses] have [len(y)] entries and start as
    zeros, and the loop runs over [zip(x, y)]: a target without an example
    is reported with the output 0 (and enters the mean loss with 0). *)
Theorem forward_pass_unpaired_targets (step_fn : step_fn) x y weights
    hyperplanes lr upd σ loss outputs σ' :
  forward_pass step_fn x y weights hyperplanes lr upd σ
  = Some (loss, outputs, σ') →
  length outputs = length y ∧
  ∀ i, (length x ≤ i)%nat → (i < length y)%nat → outputs !! i = Some 0.
Proof.
  intros Hpass. split; [by eapply forward_pass_length|].
  unfold forward_pass in Hpass.
  destruct (forward_loop _ _ _ _ _ _ _) as [[results σ1]|] eqn:Hloop; [|done].
  simpl in Hpass. simplify_eq.
  apply forward_loop_length in Hloop. rewrite length_zip in Hloop.
  intros i Hx Hy. rewrite lookup_app_r by (rewrite length_fmap; lia).
  apply lookup_replicate_2. rewrite length_fmap. lia.
Qed.

Lemma forward_pass_unpaired_targets_witness :
  forward_pass (step false) [] [2] [0%nat] [1%nat] 0.1 true example_store
  = Some (Np.sum ([] ++ [0]) / INR 1, [0], example_store) ∧
  length [0] = 1%nat ∧
  ∀ i, (0 ≤ i)%nat → (i < 1)%nat → [0] !! i = Some 0.
Proof.
  split; [reflexivity|].
  exact (forward_pass_unpaired_targets (step false) [] [2] [0%nat] [1%nat]
           0.1 true example_store _ _ _ eq_refl).
Defined.

(** X15.  [outputs[i], losses[i] = step_fn(...)] needs arrays of one
    entry: on a network whose last layer does not have exactly one neuron,
    [forward_pass] raises at the first example. *)
Theorem forward_pass_needs_single_output c x_0 x y_0 y weights hyperplanes
    lr upd σ b lw lh w :
  (0 < b)%nat →
  well_shaped σ b (S (length x_0)) (length x_0) (zip weights hyperplanes) →
  last (zip weights hyperplanes) = Some (lw, lh) → σ !! lw = Some w →
  length w ≠ 1%nat →
  forward_pass (step c) (x_0 :: x) (y_0 :: y) weights hyperplanes lr upd σ
  = None.
Proof.
  intros Hb Hws Hlast Hw Hlen.
  destruct (step_total_last c x_0 weights hyperplanes y_0 lr upd σ b
              lw lh w Hb Hws Hlast Hw) as (p & loss & σ1 & Hstep & Hp & Hl).
  unfold forward_pass. simpl. rewrite Hstep. simpl.
  destruct p as [|o [|o' p]]; simpl in Hp; [done|lia|done].
Qed.

Lemma forward_pass_needs_single_output_witness :
  forward_pass (step false) [[1; 1]] [2] [0%nat] [1%nat] 0.1 true
    example_store_two
  = None.
Proof.
  apply (forward_pass_needs_single_output false [1; 1] [] 2 [] [0%nat]
           [1%nat] 0.1 true example_store_two 1 0%nat 1%nat
           [[[0; 0; 0]]; [[0; 0; 0]]]).
  - lia.
  - exact example_two_well_shaped.
  - reflexivity.
  - reflexivity.
  - simpl. lia.
Defined.

(** X16.  An evaluation pass ([update = False]) that returns leaves the
    store as it found it; run again, it returns the same mean loss and
    the same outputs. *)
Theorem evaluation_pass_repeatable c x y weights hyperplanes lr σ
    loss outputs σ' :
  forward_pass (step c) x y weights hyperplanes lr false σ
  = Some (loss, outputs, σ') →
  σ' = σ ∧
  forward_pass (step c) x y weights hyperplanes lr false σ'
  = Some (loss, outputs, σ').
Proof.
  intros Hpass. assert (σ' = σ) as ->; [|done].
  by eapply forward_pass_no_update.
Qed.

Lemma evaluation_pass_repeatable_witness :
  ∃ loss outputs σ',
    forward_pass (step true) [[1; 1]] [1] [0%nat] [1%nat] 0.1 false
      example_store
    = Some (loss, outputs, σ') ∧
    σ' = example_store.
Proof.
  destruct (forward_pass_total true [[1; 1]] [1] [0%nat] [1%nat] 0.1 false
              example_store 1 2) as (loss & outputs & σ' & Hpass).
  - lia.
  - constructor; [reflexivity|constructor].
  - exact example_well_shaped.
  - exact example_single_output.
  - exists loss, outputs, σ'. split; [exact Hpass|].
    exact (proj1 (evaluation_pass_repeatable _ _ _ _ _ _ _ _ _ _ Hpass)).
Defined.

(** X17.  [dgn_weights] holds one array of zeros per layer; the array of
    layer [k] has shape (n_neurons[k], n_branches, n_in + 1), where [n_in]
    is [n_features] for the first layer and the number of neurons of the
    layer before for the others. *)
Theorem dgn_weights_are_zero_arrays n_features n_branches n_neurons k w :
  dgn_weights n_features n_branches n_neurons !! k = Some w →
  length (dgn_weights n_features n_branches n_neurons) = length n_neurons ∧
  ∃ n, n_neurons !! k = Some n ∧
       w = replicate n (replicate n_branches (replicate
             (match k with
              | O => n_features
              | S k' => default 0%nat (n_neurons !! k')
              end + 1) 0)).
Proof.
  intros Hw. split; [apply dgn_weights_length|].
  by apply dgn_weights_lookup.
Qed.

Lemma dgn_weights_are_zero_arrays_witness :
  length (dgn_weights 2 1 [3; 1]%nat) = 2%nat ∧
  ∃ n, [3; 1]%nat !! 1%nat = Some n ∧
       [[[0; 0; 0; 0]]]
       = replicate n (replicate 1 (replicate (3 + 1) 0)).
Proof.
  exact (dgn_weights_are_zero_arrays 2 1 [3; 1]%nat 1 [[[0; 0; 0; 0]]]
           eq_refl).
Defined.

(** X18.  The normalisation of the hyperplanes divides all the vectors of
    a neuron by one positive number, so it changes no gate: for every side
    information, the gates of the normalised array are those of the array
    as drawn (for neurons whose norm is not zero). *)
Theorem normalisation_keeps_gates samples k h_ :
  samples !! k = Some h_ →
  Forall (λ m, norm (init_slice m) ≠ 0) h_ →
  ∃ h, dgn_hyperplanes samples !! k = Some h ∧
       ∀ side_info, gate_values h side_info = gate_values h_ side_info.
Proof.
  intros Hk Hn. exists (normalise h_). split.
  - unfold dgn_hyperplanes. by rewrite list_lookup_fmap, Hk.
  - intros s. by apply gate_values_normalise.
Qed.

Lemma normalisation_keeps_gates_witness :
  ∃ h, dgn_hyperplanes [[[[3; 3]; [4; 4]]]] !! 0%nat = Some h ∧
       ∀ side_info,
         gate_values h side_info
         = gate_values [[[3; 3]; [4; 4]]] side_info.
Proof.
  apply (normalisation_keeps_gates [[[[3; 3]; [4; 4]]]] 0
           [[[3; 3]; [4; 4]]] eq_refl).
  constructor; [|constructor]. rewrite example_norm. lra.
Defined.

Lemma example_step_square_loss_exact :
  step_square_loss [1; 1] [0%nat] [1%nat] 1 0.1 0 true example_store
  = Some ([0], [0], <[0%nat := [[[0; 0; 0]]]]> example_store).
Proof.
  unfold step_square_loss, Np.hstack, example_store. simpl.
  rewrite lookup_insert_eq. simpl.
  rewrite lookup_insert_ne, lookup_insert_eq by done. simpl.
  rewrite !gate_heaviside, !bool_decide_eq_true_2 by lra. simpl.
  array_eq.
Qed.

Lemma example_train :
  ∃ reports σ',
    train true 1 [[1; 1]] [1] [[1; 1]] [0] [0%nat] [1%nat] 0.1 example_store
    = Some (reports, σ') ∧
    epoch <$> reports = seq 0 (1 + 1).
Proof.
  unfold train.
  destruct (train_epochs_total true (seq 0 (1 + 1)) [[1; 1]] [1] [[1; 1]] [0]
              [0%nat] [1%nat] 0.1 1 2) with (σ := example_store)
    as (reports & σ' & Htrain).
  - lia.
  - by repeat constructor.
  - by repeat constructor.
  - exact example_well_shaped.
  - exact example_single_output.
  - exists reports, σ'. split; [exact Htrain|].
    by eapply train_epochs_epochs.
Qed.

(** X19.  The initialisation cell, for layer sizes that are positive and
    end in 1 and drawn arrays of the shapes asked for, builds a network
    that the step functions accept: the arrays are separate objects, they
    agree in shape, the last layer has a single neuron, and every weight
    array holds zeros. *)
Theorem init_builds_well_formed_network n_features n_branches n_neurons
    samples weights hyperplanes σ :
  Forall (λ n, (0 < n)%nat) n_neurons →
  last n_neurons = Some 1%nat →
  Forall2 (λ n h_, has_shape n n_branches (n_features + 1) h_)
    n_neurons samples →
  init n_features n_branches n_neurons samples = (weights, hyperplanes, σ) →
  separate weights hyperplanes ∧
  well_shaped σ n_branches (n_features + 1) n_features
    (zip weights hyperplanes) ∧
  single_output σ (zip weights hyperplanes) ∧
  ∀ lw, lw ∈ weights → ∃ w, σ !! lw = Some w ∧ all_zero w.
Proof.
  intros Hpos Hlast Hsamples Hinit. split_and!.
  - by eapply init_separate.
  - by eapply init_well_shaped.
  - eapply init_single_output; [done| |done].
    symmetry. by eapply Forall2_length.
  - pose proof (init_separate _ _ _ _ _ _ _ Hinit) as [_ Hdisj].
    unfold init in Hinit.
    destruct (alloc (dgn_weights _ _ _) ∅) as [ws σ1] eqn:Hw.
    destruct (alloc (dgn_hyperplanes _) σ1) as [hs σ2] eqn:Hh.
    simplify_eq.
    apply alloc_spec in Hw as (_ & _ & _ & Hws).
    apply alloc_spec in Hh as (_ & _ & Hold & _).
    intros lw Hlw. pose proof Hlw as Hin.
    apply list_elem_of_lookup in Hlw as [k Hk].
    destruct (Forall2_lookup_l _ _ _ _ _ Hws Hk) as (w & Hwk & Hσ1).
    exists w. split; [rewrite Hold; [done|by apply Hdisj]|].
    destruct (dgn_weights_lookup _ _ _ _ _ Hwk) as (n & _ & ->).
    unfold all_zero. by repeat apply Forall_replicate.
Qed.

Lemma init_builds_well_formed_network_witness :
  ∃ weights hyperplanes σ,
    init 2 1 [1%nat] [[[[1; 0; 0]]]] = (weights, hyperplanes, σ) ∧
    separate weights hyperplanes ∧
    single_output σ (zip weights hyperplanes).
Proof.
  destruct (init 2 1 [1%nat] [[[[1; 0; 0]]]]) as [[weights hyperplanes] σ]
    eqn:Hinit.
  exists weights, hyperplanes, σ. split; [reflexivity|].
  destruct (init_builds_well_formed_network 2 1 [1%nat] [[[[1; 0; 0]]]]
              weights hyperplanes σ) as (Hsep & _ & Hone & _).
  - constructor; [lia|constructor].
  - reflexivity.
  - constructor; [reflexivity|constructor].
  - exact Hinit.
  - split; [exact Hsep|exact Hone].
Defined.

(** X20.  The first line the training loop prints is the evaluation of the
    network as it was before training: epoch 0 runs with [update = False],
    so that it is the line a run with [n_epochs = 0] prints, and such a
    run leaves the store as it found it. *)
Theorem training_starts_with_baseline c n x_train y_train x_test y_test
    ws hs lr σ r reports σ' :
  train c n x_train y_train x_test y_test ws hs lr σ
  = Some (r :: reports, σ') →
  train c 0 x_train y_train x_test y_test ws hs lr σ = Some ([r], σ).
Proof.
  unfold train. rewrite Nat.add_1_r. simpl. intros Htrain.
  destruct (forward_pass _ x_train _ _ _ _ _ σ) as [[[l1 p1] σ1]|] eqn:Hp1;
    [|done].
  simpl in *. apply forward_pass_no_update in Hp1 as Heq. subst σ1.
  destruct (forward_pass _ x_test _ _ _ _ _ σ) as [[[l2 p2] σ2]|] eqn:Hp2;
    [|done].
  simpl in *. apply forward_pass_no_update in Hp2 as Heq. subst σ2.
  destruct c; simpl in *.
  - destruct (accuracy p1 y_train) as [a1|]; [|done]. simpl in *.
    destruct (accuracy p2 y_test) as [a2|]; [|done]. simpl in *.
    destruct (train_epochs _ _ _ _ _ _ _ _ _ σ) as [[rest σ3]|]; [|done].
    simpl in Htrain. by simplify_eq.
  - destruct (train_epochs _ _ _ _ _ _ _ _ _ σ) as [[rest σ3]|]; [|done].
    simpl in Htrain. by simplify_eq.
Qed.

(** X21.  On a network whose arrays agree in shape and whose last layer
    has a single neuron, with examples of the right width, the training
    loop returns, for any number of epochs and in either regime, and it
    prints one line per epoch from 0 to [n_epochs]. *)
Theorem train_returns c n x_train y_train x_test y_test ws hs lr σ b
    n_features :
  (0 < b)%nat →
  Forall (λ x_i : vec, length x_i = n_features) x_train →
  Forall (λ x_i : vec, length x_i = n_features) x_test →
  well_shaped σ b (S n_features) n_features (zip ws hs) →
  single_output σ (zip ws hs) →
  ∃ reports σ',
    train c n x_train y_train x_test y_test ws hs lr σ
    = Some (reports, σ') ∧
    epoch <$> reports = seq 0 (n + 1).
Proof.
  intros Hb Hxtr Hxte Hws Hone. unfold train.
  destruct (train_epochs_total c (seq 0 (n + 1)) x_train y_train x_test
              y_test ws hs lr b n_features Hb Hxtr Hxte σ Hws Hone)
    as (reports & σ' & Htrain).
  exists reports, σ'. split; [done|]. by eapply train_epochs_epochs.
Qed.

Lemma train_returns_witness :
  ∃ reports σ',
    train true 1 [[1; 1]] [1] [[1; 1]] [0] [0%nat] [1%nat] 0.1 example_store
    = Some (reports, σ') ∧
    epoch <$> reports = seq 0 (1 + 1).
Proof.
  apply (train_returns true 1 [[1; 1]] [1] [[1; 1]] [0] [0%nat] [1%nat] 0.1
           example_store 1 2).
  - lia.
  - constructor; [reflexivity|constructor].
  - constructor; [reflexivity|constructor].
  - exact example_well_shaped.
  - exact example_single_output.
Defined.

Lemma training_starts_with_baseline_witness :
  ∃ r σ',
    train true 0 [[1; 1]] [1] [[1; 1]] [0] [0%nat] [1%nat] 0.1 example_store
    = Some ([r], σ') ∧ σ' = example_store.
Proof.
  destruct example_train as (reports & σ' & Htrain & Hepochs).
  destruct reports as [|r reports]; [discriminate Hepochs|].
  exists r, example_store. split; [|reflexivity].
  exact (training_starts_with_baseline _ _ _ _ _ _ _ _ _ _ _ _ _ Htrain).
Defined.

(** X22.  Training writes to the weight arrays only: after a training run
    that returns, every array that is not in [weights] - the hyperplanes,
    when the lists hold separate arrays - is as before, and every array of
    the store has the shape it had. *)
Theorem train_frame c n x_train y_train x_test y_test ws hs lr σ reports σ' :
  separate ws hs →
  train c n x_train y_train x_test y_test ws hs lr σ = Some (reports, σ') →
  (∀ lh, lh ∈ hs → σ' !! lh = σ !! lh) ∧
  (∀ l, l ∉ ws → σ' !! l = σ !! l) ∧
  (∀ l, shape <$> σ' !! l = shape <$> σ !! l).
Proof.
  intros [_ Hdisj] Htrain. unfold train in Htrain.
  assert (∀ l, l ∉ ws → σ' !! l = σ !! l) as Hframe.
  { intros l Hl. by eapply train_epochs_frame. }
  split_and!; [|done|by eapply train_epochs_shapes].
  intros lh Hlh. apply Hframe. intros Hin. by eapply Hdisj.
Qed.

Lemma train_frame_witness :
  separate [0%nat] [1%nat] ∧
  ∃ reports σ',
    train true 1 [[1; 1]] [1] [[1; 1]] [0] [0%nat] [1%nat] 0.1 example_store
    = Some (reports, σ') ∧
    ∀ lh, lh ∈ [1%nat] → σ' !! lh = example_store !! lh.
Proof.
  split; [exact example_separate|].
  destruct example_train as (reports & σ' & Htrain & _).
  exists reports, σ'. split; [exact Htrain|].
  exact (proj1 (train_frame _ _ _ _ _ _ _ _ _ _ _ _
                  example_separate Htrain)).
Defined.

(** X23.  A network whose last layer has weights all zero - as after
    initialisation - predicts 0 in the squared-loss regime and, when
    [0 < epsilon <= 1 - epsilon], 1/2 in the Bernoulli regime, whatever
    the inputs and the other layers.  The lists hold separate arrays. *)
Theorem untrained_prediction inputs weights hyperplanes bias lr eps t upd σ
    p loss σ' lw lh w :
  separate weights hyperplanes →
  last (zip weights hyperplanes) = Some (lw, lh) →
  σ !! lw = Some w → all_zero w →
  (step_square_loss inputs weights hyperplanes bias lr t upd σ
   = Some (p, loss, σ') →
   Forall (λ y, y = 0) p) ∧
  (0 < eps → eps <= 1 - eps →
   step_bernoulli inputs weights hyperplanes bias lr eps t upd σ
   = Some (p, loss, σ') →
   Forall (λ y, y = 1 / 2) p).
Proof.
  intros Hsep Hlast Hw Hzero. apply separate_zip in Hsep as [Hnd Hdisj].
  split.
  - intros Hstep. apply step_square_loss_inv in Hstep as [Hrun _].
    destruct (for_layers_last _ _ _ _ _ _ _ _ _ _ _ Hnd Hdisj Hrun Hlast Hw)
      as (h & a & w' & Hl & _).
    by eapply layer_square_loss_zero.
  - intros _ Heps Hstep. apply step_bernoulli_inv in Hstep as [Hrun _].
    destruct (for_layers_last _ _ _ _ _ _ _ _ _ _ _ Hnd Hdisj Hrun Hlast Hw)
      as (h & a & w' & Hl & _).
    by eapply layer_bernoulli_zero.
Qed.

Lemma untrained_prediction_witness :
  separate [0%nat] [1%nat] ∧
  (step_square_loss [1; 1] [0%nat] [1%nat] 1 0.1 2 true example_store
   = Some ([0], [2], <[0%nat := [[[0.2; 0.2; 0.2]]]]> example_store) ∧
   Forall (λ y, y = 0) [0]) ∧
  ∃ p loss σ',
    step_bernoulli [1; 1] [0%nat] [1%nat] 1 0.1 0.01 1 true example_store
    = Some (p, loss, σ') ∧
    Forall (λ y, y = 1 / 2) p.
Proof.
  assert (all_zero [[[0; 0; 0]]]) as Hzero by (by repeat constructor).
  assert (0 < 0.01) as Heps by lra.
  assert (0.01 <= 1 - 0.01) as Heps' by lra.
  split; [exact example_separate|]. split.
  - split; [exact example_step_square_loss|].
    exact (proj1 (untrained_prediction [1; 1] [0%nat] [1%nat] 1 0.1 0.01 2
                    true example_store [0] [2]
                    (<[0%nat := [[[0.2; 0.2; 0.2]]]]> example_store)
                    0%nat 1%nat [[[0; 0; 0]]]
                    example_separate eq_refl eq_refl Hzero)
             example_step_square_loss).
  - destruct (example_step_bernoulli true) as (p & loss & σ' & Hstep).
    exists p, loss, σ'. split; [exact Hstep|].
    exact (proj2 (untrained_prediction [1; 1] [0%nat] [1%nat] 1 0.1 0.01 1
                    true example_store p loss σ'
                    0%nat 1%nat [[[0; 0; 0]]]
                    example_separate eq_refl eq_refl Hzero)
             Heps Heps' Hstep).
Defined.

(** X24.  With [learning_rate = 0] an updating step of either regime that
    returns leaves the store as it found it. *)
Theorem zero_learning_rate_changes_nothing inputs weights hyperplanes bias
    eps t (regime : bool → store → option (vec * vec * store)) σ p loss σ' :
  regime = step_square_loss inputs weights hyperplanes bias 0 t ∨
  regime = step_bernoulli inputs weights hyperplanes bias 0 eps t →
  regime true σ = Some (p, loss, σ') →
  σ' = σ.
Proof.
  intros [->| ->] Hstep.
  - apply step_square_loss_inv in Hstep as [Hrun _].
    eapply for_layers_same; [|exact Hrun].
    intros w h a y w' Hl. eapply layer_square_loss_exact; [exact Hl|by left].
  - apply step_bernoulli_inv in Hstep as [Hrun _].
    eapply for_layers_same; [|exact Hrun].
    intros w h a y w' Hl. by eapply layer_bernoulli_lr_zero.
Qed.

Lemma zero_learning_rate_changes_nothing_witness :
  ∃ p loss σ',
    step_bernoulli [1; 1] [0%nat] [1%nat] 1 0 0.01 1 true example_store
    = Some (p, loss, σ') ∧
    σ' = example_store.
Proof.
  destruct (step_bernoulli_total [1; 1] [0%nat] [1%nat] 1 0 0.01 1 true
              example_store 1) as (p & loss & σ' & Hstep).
  - lia.
  - discriminate.
  - exact example_well_shaped.
  - exists p, loss, σ'. split; [exact Hstep|].
    exact (zero_learning_rate_changes_nothing [1; 1] [0%nat] [1%nat] 1
             0.01 1 _ example_store p loss σ' (or_intror eq_refl) Hstep).
Defined.

(** X25.  In the squared-loss regime, when an updating step predicts the
    target exactly (in every entry of the prediction), the weights of the
    last layer are as before the call.  The lists hold separate arrays. *)
Theorem exact_prediction_keeps_last_layer inputs weights hyperplanes bias lr t
    σ p loss σ' lw lh :
  separate weights hyperplanes →
  step_square_loss inputs weights hyperplanes bias lr t true σ
  = Some (p, loss, σ') →
  Forall (λ y, y = t) p →
  last (zip weights hyperplanes) = Some (lw, lh) →
  σ' !! lw = σ !! lw.
Proof.
  intros Hsep Hstep Hp Hlast. apply separate_zip in Hsep as [Hnd Hdisj].
  apply step_square_loss_inv in Hstep as [Hrun _].
  destruct (for_layers_last_layer _ _ _ _ _ _ _ _ _ _ Hnd Hdisj Hrun Hlast)
    as (w & h & a & w' & Hw & Hl & Hw').
  rewrite Hw, Hw'. f_equal.
  eapply layer_square_loss_exact; [exact Hl|by right].
Qed.

Lemma exact_prediction_keeps_last_layer_witness :
  separate [0%nat] [1%nat] ∧
  step_square_loss [1; 1] [0%nat] [1%nat] 1 0.1 0 true example_store
  = Some ([0], [0], <[0%nat := [[[0; 0; 0]]]]> example_store) ∧
  Forall (λ y, y = 0) [0] ∧
  (<[0%nat := [[[0; 0; 0]]]]> example_store) !! 0%nat
  = example_store !! 0%nat.
Proof.
  split; [exact example_separate|].
  split; [exact example_step_square_loss_exact|].
  assert (Forall (λ y, y = 0) [0]) as Hp by (by repeat constructor).
  split; [exact Hp|].
  exact (exact_prediction_keeps_last_layer _ _ _ _ _ _ _ _ _ _ 0%nat 1%nat
           example_separate example_step_square_loss_exact Hp eq_refl).
Defined.

(** X26.  In classification the loop rounds the predictions to compare
    them with the labels.  With [0 < epsilon <= 1 - epsilon] every
    prediction of [step_bernoulli] rounds to a label, 0 or 1, and to 1
    exactly when it is above 1/2; a prediction of exactly 1/2 rounds
    to 0. *)
Theorem bernoulli_prediction_rounds_to_label inputs weights hyperplanes bias
    lr eps t upd σ p loss σ' :
  0 < eps → eps <= 1 - eps →
  step_bernoulli inputs weights hyperplanes bias lr eps t upd σ
  = Some (p, loss, σ') →
  Forall (λ y, round y = if decide (1 / 2 < y) then 1 else 0) p.
Proof.
  intros Heps Heps' Hstep.
  eapply Forall_impl; [by eapply step_bernoulli_range|].
  intros y Hy. simpl in Hy. apply round_unit_interval. lra.
Qed.

Lemma bernoulli_prediction_rounds_to_label_witness :
  ∃ p loss σ',
    step_bernoulli [1; 1] [0%nat] [1%nat] 1 0.1 0.01 1 true example_store
    = Some (p, loss, σ') ∧
    Forall (λ y, round y = if decide (1 / 2 < y) then 1 else 0) p.
Proof.
  destruct (example_step_bernoulli true) as (p & loss & σ' & Hstep).
  exists p, loss, σ'. split; [exact Hstep|].
  apply (bernoulli_prediction_rounds_to_label [1; 1] [0%nat] [1%nat] 1 0.1
           0.01 1 true example_store p loss σ'); [lra|lra|exact Hstep].
Defined.

Lemma train_epochs_accuracies c epochs x_train y_train x_test y_test ws hs lr
    σ reports σ' :
  y_train ≠ [] → y_test ≠ [] →
  train_epochs c epochs x_train y_train x_test y_test ws hs lr σ
  = Some (reports, σ') →
  Forall (λ r, if c
               then ∃ a a', accuracies r = Some (a, a') ∧
                            0 <= a <= 1 ∧ 0 <= a' <= 1
               else accuracies r = None) reports.
Proof.
  intros Htr Hte. revert σ reports.
  induction epochs as [|e epochs IH]; intros σ reports Hrun; simpl in Hrun.
  { by simplify_eq. }
  destruct (forward_pass _ x_train _ _ _ _ _ σ) as [[[ltr ptr] σ1]|]; [|done].
  simpl in Hrun.
  destruct (forward_pass _ x_test _ _ _ _ _ σ1) as [[[lte pte] σ2]|]; [|done].
  simpl in Hrun.
  destruct c.
  - destruct (accuracy ptr y_train) as [a'|] eqn:Ha'; [|done]. simpl in Hrun.
    destruct (accuracy pte y_test) as [a|] eqn:Ha; [|done]. simpl in Hrun.
    destruct (train_epochs _ _ _ _ _ _ _ _ _ σ2) as [[rs σ3]|] eqn:Hrest;
      [|done].
    simpl in Hrun. simplify_eq. constructor; [|by eapply IH].
    exists a, a'. simpl. split_and!; [done|..].
    + exact (proj1 (accuracy_bounds _ _ _ Hte Ha)).
    + exact (proj2 (accuracy_bounds _ _ _ Hte Ha)).
    + exact (proj1 (accuracy_bounds _ _ _ Htr Ha')).
    + exact (proj2 (accuracy_bounds _ _ _ Htr Ha')).
  - simpl in Hrun.
    destruct (train_epochs _ _ _ _ _ _ _ _ _ σ2) as [[rs σ3]|] eqn:Hrest;
      [|done].
    simpl in Hrun. simplify_eq. constructor; [done|by eapply IH].
Qed.

(** X27.  What a training run reports besides the losses: in
    classification every line carries a test and a train accuracy, both
    between 0 and 1 (the data sets being non-empty); in regression no line
    carries an accuracy. *)
Theorem train_reports_accuracies c n x_train y_train x_test y_test ws hs lr
    σ reports σ' :
  y_train ≠ [] → y_test ≠ [] →
  train c n x_train y_train x_test y_test ws hs lr σ = Some (reports, σ') →
  Forall (λ r, if c
               then ∃ a a', accuracies r = Some (a, a') ∧
                            0 <= a <= 1 ∧ 0 <= a' <= 1
               else accuracies r = None) reports.
Proof. intros Htr Hte. by apply train_epochs_accuracies. Qed.

Lemma train_reports_accuracies_witness :
  ∃ reports σ',
    train true 1 [[1; 1]] [1] [[1; 1]] [0] [0%nat] [1%nat] 0.1 example_store
    = Some (reports, σ') ∧
    Forall (λ r, ∃ a a', accuracies r = Some (a, a') ∧
                         0 <= a <= 1 ∧ 0 <= a' <= 1) reports.
Proof.
  destruct example_train as (reports & σ' & Htrain & _).
  exists reports, σ'. split; [exact Htrain|].
  apply (train_reports_accuracies true 1 [[1; 1]] [1] [[1; 1]] [0]
           [0%nat] [1%nat] 0.1 example_store reports σ');
    [discriminate|discriminate|exact Htrain].
Defined.
